(** * Body marking tool: a shallow embedding of [deep.py] and its properties

    The program is one Streamlit script.  Every user interaction re-runs the
    script from the top against the session state, which holds two Python
    lists: the pending dots and the saved entries.  The development below
    follows the script in its own order: the image loader, the renderer
    [get_image_with_dots], the sidebar handlers, the dot controls, the entry
    table with its delete buttons, and the CSV export. *)

From Stdlib Require Import ZArith Lia Bool Ascii String DecimalString.
From Stdlib Require DecimalZ DecimalPos.
From stdpp Require Import list.

Local Open Scope Z_scope.

(** ** Pillow images

    An RGBA image is kept as its rows of pixels, top row first.  Pixel
    coordinates are Python ints, hence [Z]; a coordinate outside the image
    addresses no pixel. *)

Definition rgba : Type := Z * Z * Z * Z.

Definition white : rgba := (255, 255, 255, 255).
Definition red : rgba := (255, 0, 0, 255).
Definition blue : rgba := (0, 0, 255, 255).

Abbreviation Image := (list (list rgba)).

(** [Image.new("RGBA", (w, h), c)] *)
Definition new_image (w h : nat) (c : rgba) : Image :=
  replicate h (replicate w c).

Definition width (img : Image) : Z :=
  match img with
  | [] => 0
  | row :: _ => Z.of_nat (length row)
  end.

Definition height (img : Image) : Z := Z.of_nat (length img).

Definition getpixel (img : Image) (x y : Z) : option rgba :=
  if (0 <=? x) && (0 <=? y)
  then row ← img !! Z.to_nat y; row !! Z.to_nat x
  else None.

(** A bounding box [(x0, y0, x1, y1)] as [ImageDraw.ellipse] takes it. *)
Definition box : Type := Z * Z * Z * Z.

(** [ImageDraw.ellipse] is Pillow's rasteriser, which the script only calls.
    The development is parametric in the set of pixels it fills for a bounding
    box and asks two things of it: nothing is painted outside the box, and the
    box of half-side [r] around a pixel paints that pixel when [r] is at
    least 1.  Nothing is asked for the box of a single pixel, in which Pillow
    fills nothing. *)
Class EllipseFill := {
  inside : box → Z → Z → bool;
  inside_box : ∀ x0 y0 x1 y1 px py,
    inside (x0, y0, x1, y1) px py = true → x0 ≤ px ≤ x1 ∧ y0 ≤ py ≤ y1;
  inside_centre : ∀ x y r,
    1 ≤ r → inside (x - r, y - r, x + r, y + r) x y = true
}.

(** The ellipse inscribed in the box, tested in doubled coordinates so that
    a centre between two pixels needs no fraction. *)
Definition inscribed (b : box) (px py : Z) : bool :=
  let '(x0, y0, x1, y1) := b in
  let a := x1 - x0 in
  let c := y1 - y0 in
  let dx := 2 * px - (x0 + x1) in
  let dy := 2 * py - (y0 + y1) in
  (x0 <=? px) && (px <=? x1) && (y0 <=? py) && (py <=? y1)
  && (dx * dx * (c * c) + dy * dy * (a * a) <=? a * a * (c * c)).

(** The whole box: the coarsest fill the two laws allow. *)
Definition boxed (b : box) (px py : Z) : bool :=
  let '(x0, y0, x1, y1) := b in
  (x0 <=? px) && (px <=? x1) && (y0 <=? py) && (py <=? y1).

(** [draw.ellipse(xy, fill=c)]: every pixel of the image that the fill rule
    selects takes the ink; drawing is clipped to the image.  A box with
    [x1 < x0] or [y1 < y0] selects nothing; the dot size slider, from 2 to
    30, never asks for one. *)
Definition ellipse `{EllipseFill} (img : Image) (xy : box) (fill : rgba) : Image :=
  imap (λ j row,
          imap (λ i c, if inside xy (Z.of_nat i) (Z.of_nat j) then fill else c) row)
       img.

(** ** The renderer (lines 34-43)

    [base_image.copy()] gives the function an image of its own; as a value
    that copy is the base image itself.  Python's [//] is floor division. *)
Definition get_image_with_dots `{EllipseFill} (base_image : Image)
    (dots : list (Z * Z)) (current_dot : option (Z * Z)) (dot_size : Z) : Image :=
  let img := base_image in
  let r := dot_size / 2 in
  let img :=
    fold_left (λ im '(x, y), ellipse im (x - r, y - r, x + r, y + r) red) dots img in
  match current_dot with
  | Some (cx, cy) => ellipse img (cx - r, cy - r, cx + r, cy + r) blue
  | None => img
  end.

(** [entry_image.save(img_io, format="PNG")] followed by [getvalue()]:
    Pillow's PNG encoder, again a parameter. *)
Class PngEncoder := { save_png : Image → list Byte.byte }.

(** ** The renderer on Python objects

    The same function once more, now with the objects it touches kept in a
    store, so that who is mutated can be stated: images and lists are
    referred to by their position in the store, [copy] allocates, and
    [draw.ellipse] overwrites the image the [Draw] handle was made for. *)
Module Mut.

Inductive object :=
  | PilImage (img : Image)
  | PyList (items : list (Z * Z)).

(** A computation over the store; [None] is a raised exception. *)
Definition Py (A : Type) : Type := list object → option (A * list object).

Definition ret {A} (a : A) : Py A := λ h, Some (a, h).

Definition bind {A B} (m : Py A) (k : A → Py B) : Py B :=
  λ h, match m h with
       | Some (a, h') => k a h'
       | None => None
       end.

Definition raise {A} : Py A := λ _, None.

Definition new (o : object) : Py nat := λ h, Some (length h, h ++ [o]).

Definition deref (l : nat) : Py object :=
  λ h, match h !! l with
       | Some o => Some (o, h)
       | None => None
       end.

Definition assign (l : nat) (o : object) : Py unit :=
  λ h, if decide (l < length h)%nat then Some (tt, <[l:=o]> h) else None.

(** [img.copy()] *)
Definition image_copy (l : nat) : Py nat :=
  bind (deref l) (λ o,
    match o with
    | PilImage img => new (PilImage img)
    | PyList _ => raise
    end).

(** [draw.ellipse(xy, fill=c)] for [draw = ImageDraw.Draw(img)] *)
Definition draw_ellipse `{EllipseFill} (img : nat) (xy : box) (fill : rgba) : Py unit :=
  bind (deref img) (λ o,
    match o with
    | PilImage im => assign img (PilImage (ellipse im xy fill))
    | PyList _ => raise
    end).

(** The items a [for] loop over the list sees. *)
Definition items_of (l : nat) : Py (list (Z * Z)) :=
  bind (deref l) (λ o,
    match o with
    | PyList ps => ret ps
    | PilImage _ => raise
    end).

Fixpoint for_each {A} (xs : list A) (body : A → Py unit) : Py unit :=
  match xs with
  | [] => ret tt
  | x :: xs' => bind (body x) (λ _, for_each xs' body)
  end.

Definition get_image_with_dots `{EllipseFill} (base_image dots : nat)
    (current_dot : option (Z * Z)) (dot_size : Z) : Py nat :=
  bind (image_copy base_image) (λ img,
  let r := dot_size / 2 in
  bind (items_of dots) (λ ps,
  bind (for_each ps (λ '(x, y), draw_ellipse img (x - r, y - r, x + r, y + r) red)) (λ _,
  bind (match current_dot with
        | Some (cx, cy) => draw_ellipse img (cx - r, cy - r, cx + r, cy + r) blue
        | None => ret tt
        end) (λ _,
  ret img)))).

End Mut.

(** ** The image loader (lines 13-25) *)

(** [str.lower()], on the ASCII letters. *)
Definition lower_ascii (c : ascii) : ascii :=
  let n := nat_of_ascii c in
  if (65 <=? n)%nat && (n <=? 90)%nat then ascii_of_nat (n + 32) else c.

Fixpoint lower (s : string) : string :=
  match s with
  | EmptyString => EmptyString
  | String c s' => String (lower_ascii c) (lower s')
  end.

(** [sub in s] *)
Fixpoint contains (sub s : string) : bool :=
  String.prefix sub s ||
  match s with
  | EmptyString => false
  | String _ s' => contains sub s'
  end.

(** [s.endswith(suffix)] *)
Definition endswith (s suffix : string) : bool :=
  let n := String.length s in
  let k := String.length suffix in
  (k <=? n)%nat && String.eqb (substring (n - k) k s) suffix.

(** What a download button offers: text or bytes. *)
Inductive payload :=
  | Text (s : string)
  | Bytes (b : list Byte.byte).

(** What the script puts on the page: notices, pictures, the table of
    entries and the download buttons.  Titles, captions and the input widgets
    themselves carry no data of the session and are left out. *)
Inductive element :=
  | st_error (body : string)
  | st_warning (body : string)
  | st_success (body : string)
  | st_info (body : string)
  | st_image (data : list Byte.byte)
  | st_dataframe (rows : list (string * string * Z))
  | st_download_button (data : payload) (file_name mime : string).

(** The working directory: each name [os.listdir()] returns, with what
    [Image.open(name).convert("RGBA")] does for it, the decoded image or the
    text of the exception it raises. *)
Abbreviation directory := (list (string * (Image + string))).

Definition is_image_file (f : string) : bool :=
  endswith (lower f) ".jpg" || endswith (lower f) ".jpeg" || endswith (lower f) ".png".

Definition is_body_image (f : string) : bool :=
  contains "human" (lower f) || contains "body" (lower f).

(** The function's return value ([None] where it returns nothing) and the
    notices it puts on the page. *)
Definition load_body_image (listdir : directory) : option Image * list element :=
  let image_files := List.filter (λ f, is_image_file f.1) listdir in
  let body_images := List.filter (λ f, is_body_image f.1) image_files in
  match body_images with
  | f :: _ =>
      match f.2 with
      | inl img => (Some img, [])
      | inr e =>
          (None, [st_error ("Error loading image '" ++ f.1 ++ "': " ++ e)])
      end
  | [] =>
      (Some (new_image 500 800 white),
       [st_warning "No body outline image found. Using a blank placeholder."])
  end.

(** ** Session state and one run of the script *)

(** A saved entry is the tuple [(date, label, img_bytes, dot_size)]. *)
Abbreviation entry := (string * string * list Byte.byte * Z)%type.

Definition entry_date (e : entry) : string := e.1.1.1.
Definition entry_label (e : entry) : string := e.1.1.2.
Definition entry_bytes (e : entry) : list Byte.byte := e.1.2.
Definition entry_size (e : entry) : Z := e.2.

Record session_state := { dots : list (Z * Z); entries : list entry }.

(** Lines 28-31. *)
Definition initial_state : session_state := {| dots := []; entries := [] |}.

Inductive exn := AttributeError | IndexError | StreamlitAPIException.

(** A run ends early on [st.rerun()] or on an exception. *)
Inductive stop := Rerun | Raise (e : exn).

(** A piece of the script: it reads and writes the session state, adds to
    the page, and either goes on with a value or stops the run.  What was
    written before a stop stays written. *)
Definition Script (A : Type) : Type :=
  session_state → list element → (A + stop) * session_state * list element.

#[export] Instance script_ret : MRet Script :=
  λ A a st page, (inl a, st, page).

#[export] Instance script_bind : MBind Script :=
  λ A B k m st page,
    match m st page with
    | (inl a, st', page') => k a st' page'
    | (inr s, st', page') => (inr s, st', page')
    end.

Definition gets {A} (f : session_state → A) : Script A :=
  λ st page, (inl (f st), st, page).

Definition modify (f : session_state → session_state) : Script unit :=
  λ st page, (inl tt, f st, page).

Definition emit (e : element) : Script unit :=
  λ st page, (inl tt, st, page ++ [e]).

Definition raise {A} (e : exn) : Script A :=
  λ st page, (inr (Raise e), st, page).

Definition st_rerun {A} : Script A :=
  λ st page, (inr Rerun, st, page).

Definition when (b : bool) (m : Script unit) : Script unit :=
  if b then m else mret tt.

Fixpoint for_each {A} (xs : list A) (body : A → Script unit) : Script unit :=
  match xs with
  | [] => mret tt
  | x :: xs' => body x;; for_each xs' body
  end.

Definition state_of {A} (r : (A + stop) * session_state * list element) : session_state :=
  r.1.2.
Definition page_of {A} (r : (A + stop) * session_state * list element) : list element :=
  r.2.
Definition ending_of {A} (r : (A + stop) * session_state * list element) : A + stop :=
  r.1.1.

(** The buttons of the page; a run is started by at most one of them. *)
Inductive button :=
  | SaveEntry
  | UndoLastDot
  | ClearAllDots
  | AddDot
  | Delete (i : nat)
  | PrepareCSV.

#[export] Instance button_eq_dec : EqDecision button.
Proof. solve_decision. Defined.

Definition pressed (clicked : option button) (b : button) : bool :=
  bool_decide (clicked = Some b).

(** The module-level [base_image] is what [load_body_image] returned; using
    [None] as an image raises [AttributeError]. *)
Definition the_image (base_image : option Image) : Script Image :=
  match base_image with
  | Some img => mret img
  | None => raise AttributeError
  end.

Definition nonempty {A} (l : list A) : bool :=
  match l with
  | [] => false
  | _ :: _ => true
  end.

Definition truthy (s : string) : bool := negb (String.eqb s "").

(** *** Sidebar (lines 51-73) *)

Definition save_entry `{EllipseFill, PngEncoder} (base_image : option Image)
    (label : string) (dot_size : Z) (now : string) : Script unit :=
  ds ← gets dots;
  if truthy label && nonempty ds then
    let date := now in
    base ← the_image base_image;
    let entry_image := get_image_with_dots base ds None dot_size in
    let img_bytes := save_png entry_image in
    modify (λ st, {| dots := dots st;
                     entries := entries st ++ [(date, label, img_bytes, dot_size)] |});;
    modify (λ st, {| dots := []; entries := entries st |});;
    emit (st_success "Entry saved.")
  else
    emit (st_warning "Please add at least one dot and a label.").

Definition undo_last_dot : Script unit :=
  ds ← gets dots;
  when (nonempty ds)
       (modify (λ st, {| dots := removelast (dots st); entries := entries st |})).

Definition clear_all_dots : Script unit :=
  modify (λ st, {| dots := []; entries := entries st |}).

(** *** Position sliders (lines 89-90) *)

(** [st.slider(label, min_value, max_value, value)]: the three numbers the
    script passes for the X and for the Y coordinate. *)
Definition x_slider (base_image : list (list rgba)) : Z * Z * Z :=
  (0,
   if 0 <? width base_image then width base_image - 1 else 499,
   if 0 <? width base_image then width base_image / 2 else 250).

Definition y_slider (base_image : list (list rgba)) : Z * Z * Z :=
  (0,
   if 0 <? height base_image then height base_image - 1 else 799,
   if 0 <? height base_image then height base_image / 2 else 400).

(** [st.slider(label, min_value, max_value, value)]: the widget refuses a
    range whose lower end is not below its upper end, and otherwise gives
    the position [set] it is held at, which lies in the range. *)
Definition st_slider (args : Z * Z * Z) (set : Z) : Script Z :=
  let '(min_value, max_value, value) := args in
  if min_value <? max_value then mret set else raise StreamlitAPIException.

(** *** Dot controls (lines 93-100) *)

Definition add_dot (x y : Z) : Script unit :=
  modify (λ st, {| dots := dots st ++ [(x, y)]; entries := entries st |});;
  st_rerun.

(** *** Saved entries (lines 105-131) *)

(** [st.session_state.entries.pop(i)] *)
Definition delete_entry (i : nat) : Script unit :=
  es ← gets entries;
  if decide (i < length es)%nat
  then modify (λ st, {| dots := dots st; entries := delete i (entries st) |})
  else raise IndexError.

(** [s.replace(old, new)] for single characters. *)
Fixpoint replace (old new : ascii) (s : string) : string :=
  match s with
  | EmptyString => EmptyString
  | String c s' => String (if Ascii.eqb c old then new else c) (replace old new s')
  end.

(** One turn of the loop of line 114. *)
Definition entry_row (clicked : option button) (i : nat) (e : entry) : Script unit :=
  let '(date, label, img_bytes, size) := e in
  emit (st_image img_bytes);;
  emit (st_download_button (Bytes img_bytes)
          (replace " " "_" label ++ "_" ++ replace ":" "-" date ++ ".png")
          "image/png");;
  when (pressed clicked (Delete i)) (delete_entry i;; st_rerun).

Definition saved_entries (clicked : option button) : Script unit :=
  es ← gets entries;
  if nonempty es then
    emit (st_dataframe ((λ '(date, label, _, size), (date, label, size)) <$> es));;
    for_each (imap pair es) (λ ie, entry_row clicked ie.1 ie.2)
  else
    emit (st_info "No entries saved yet.").

(** *** CSV export (lines 134-145)

    [csv.writer] with its default dialect: fields are joined by commas; a
    field holding a comma, a quote or a line break is put between quotes with
    its quotes doubled; a row that would come out empty is written as one
    quoted empty field; every row ends in carriage return, line feed. *)

Definition dquote : ascii := "034"%char.
Definition cr : ascii := "013"%char.
Definition lf : ascii := "010"%char.

(** The values a row is made of, and [str()] of them. *)
Inductive value :=
  | Str (s : string)
  | Int (n : Z).

Definition str (v : value) : string :=
  match v with
  | Str s => s
  | Int n => DecimalString.NilZero.string_of_int (Z.to_int n)
  end.

Definition special (c : ascii) : bool :=
  Ascii.eqb c "," || Ascii.eqb c dquote || Ascii.eqb c cr || Ascii.eqb c lf.

Fixpoint needs_quotes (field : string) : bool :=
  match field with
  | EmptyString => false
  | String c field' => special c || needs_quotes field'
  end.

Fixpoint double_quotes (field : string) : string :=
  match field with
  | EmptyString => EmptyString
  | String c field' =>
      if Ascii.eqb c dquote
      then String dquote (String dquote (double_quotes field'))
      else String c (double_quotes field')
  end.

Definition csv_field (field : string) : string :=
  if needs_quotes field
  then String dquote (double_quotes field ++ String dquote EmptyString)
  else field.

Definition csv_record (row : list value) : string :=
  let rec := String.concat "," (map (λ v, csv_field (str v)) row) in
  if nonempty row && String.eqb rec ""
  then String dquote (String dquote EmptyString)
  else rec.

(** [writer.writerow(row)] on the buffer [csv_io]. *)
Definition writerow (csv_io : string) (row : list value) : string :=
  csv_io ++ csv_record row ++ String cr (String lf EmptyString).

Definition prepare_csv : Script unit :=
  es ← gets entries;
  let csv_io := EmptyString in
  let csv_io := writerow csv_io [Str "Date"; Str "Label"; Str "Dot Size"] in
  let csv_io :=
    fold_left (λ buf '(date, label, _, size), writerow buf [Str date; Str label; Int size])
              es csv_io in
  emit (st_download_button (Text csv_io) "body_markers_summary.csv" "text/csv").

(** *** The script, top to bottom

    [listdir] is the working directory, [label], [dot_size], [x] and [y] are
    what the input widgets hold, [now] is the clock reading formatted by
    [strftime], and [clicked] is the button that started the run.  Lines
    80-85 work out the display height from the size of the image; they store
    nothing and show nothing, and stand here only as the use of the image
    that they are.  Lines 89-90 are the two sliders. *)
Definition script `{EllipseFill, PngEncoder} (listdir : directory)
    (label : string) (dot_size x y : Z) (now : string)
    (clicked : option button) : Script unit :=
  let '(base_image, notices) := load_body_image listdir in
  for_each notices emit;;
  when (pressed clicked SaveEntry) (save_entry base_image label dot_size now);;
  when (pressed clicked UndoLastDot) undo_last_dot;;
  when (pressed clicked ClearAllDots) clear_all_dots;;
  (* line 81 is the first use of the image outside a handler *)
  base ← the_image base_image;
  x ← st_slider (x_slider base) x;
  y ← st_slider (y_slider base) y;
  ds ← gets dots;
  let image_with_current_dot := get_image_with_dots base ds (Some (x, y)) dot_size in
  emit (st_image (save_png image_with_current_dot));;
  when (pressed clicked AddDot) (add_dot x y);;
  saved_entries clicked;;
  when (pressed clicked PrepareCSV) prepare_csv.

(** The session states the program can be in: the initial one and whatever
    a run leaves behind, whichever way the run ends. *)
Inductive reachable `{EllipseFill, PngEncoder} : session_state → Prop :=
  | reachable_initial : reachable initial_state
  | reachable_run st listdir label dot_size x y now clicked page :
      reachable st →
      reachable (state_of (script listdir label dot_size x y now clicked st page)).

(** ** Notions the properties are stated with *)

(** [covered r dots px py]: some dot's ellipse, of bounding box half-side
    [r], fills the pixel [(px, py)]. *)
Definition covered `{EllipseFill} (r : Z) (dots : list (Z * Z)) (px py : Z) : bool :=
  existsb (λ '(x, y), inside (x - r, y - r, x + r, y + r) px py) dots.

(** The files [load_body_image] chooses from, in directory order. *)
Definition candidates (listdir : directory) : directory :=
  List.filter (λ f, is_body_image f.1) (List.filter (λ f, is_image_file f.1) listdir).

(** [keeps P m]: whatever [m] does and however it ends, a session state
    satisfying [P] is left satisfying [P]. *)
Definition keeps {A} (P : session_state → Prop) (m : Script A) : Prop :=
  ∀ st page, P st → P (state_of (m st page)).

(** Every saved entry has a label. *)
Definition labelled (st : session_state) : Prop :=
  Forall (λ e, entry_label e ≠ ""%string) (entries st).

(** What a click does to the session state when the base image [b] was
    loaded: the marker store as a transition function. *)
Definition effect `{EllipseFill, PngEncoder} (b : Image) (label : string)
    (dot_size x y : Z) (now : string) (clicked : option button)
    (st : session_state) : session_state :=
  match clicked with
  | Some SaveEntry =>
      if truthy label && nonempty (dots st)
      then {| dots := [];
              entries :=
                entries st ++
                [(now, label, save_png (get_image_with_dots b (dots st) None dot_size),
                  dot_size)] |}
      else st
  | Some UndoLastDot => {| dots := removelast (dots st); entries := entries st |}
  | Some ClearAllDots => {| dots := []; entries := entries st |}
  | Some AddDot => {| dots := dots st ++ [(x, y)]; entries := entries st |}
  | Some (Delete i) =>
      if decide (i < length (entries st))%nat
      then {| dots := dots st; entries := delete i (entries st) |}
      else st
  | Some PrepareCSV | None => st
  end.

(** The sliders refuse their range exactly for an image one pixel wide or
    one pixel high: the range is then from 0 to 0. *)
Definition sliders_refused (b : Image) : bool :=
  (width b =? 1) || (height b =? 1).

(** The buttons of the sidebar, which the script tests before the sliders. *)
Definition sidebar_only (clicked : option button) : option button :=
  match clicked with
  | Some SaveEntry | Some UndoLastDot | Some ClearAllDots => clicked
  | _ => None
  end.

(** How a run with the base image loaded ends. *)
Definition ending (b : Image) (clicked : option button) (st : session_state) :
    unit + stop :=
  if sliders_refused b then inr (Raise StreamlitAPIException)
  else match clicked with
       | Some AddDot => inr Rerun
       | Some (Delete i) =>
           if decide (i < length (entries st))%nat then inr Rerun else inl tt
       | _ => inl tt
       end.

Section Tables.
Local Open Scope string_scope.

(** The text of a table: its records in order, each ended by carriage
    return, line feed. *)
Fixpoint csv_text (rows : list (list value)) : string :=
  match rows with
  | [] => ""
  | row :: rows' => csv_record row ++ String cr (String lf "") ++ csv_text rows'
  end.

(** The row the export writes for an entry: date, label and dot size; the
    picture, all that is kept of the coordinates, is not in it. *)
Definition summary_row (e : entry) : list value :=
  [Str (entry_date e); Str (entry_label e); Int (entry_size e)].

(** The fields of a row as the writer sees them. *)
Definition row_fields (row : list value) : list string := str <$> row.

End Tables.

(** ** Reading the CSV text back

    What rows a CSV text holds is fixed by the reader the format comes
    with: [csv.reader] in its default dialect, the state machine below,
    run over the characters of the whole text.  A line break outside quotes
    ends a record (carriage return, line feed, or the two together), an
    empty line is the empty record, and a quote inside a quoted field is
    written twice. *)

Module Reader.
Local Open Scope string_scope.

Inductive kind := Comma | Quote | CarriageReturn | LineFeed | Other.

Definition classify (c : ascii) : kind :=
  if Ascii.eqb c "," then Comma
  else if Ascii.eqb c dquote then Quote
  else if Ascii.eqb c cr then CarriageReturn
  else if Ascii.eqb c lf then LineFeed
  else Other.

Inductive mode :=
  | StartRecord
  | StartField
  | InField
  | InQuotedField
  | QuoteInQuotedField
  | AfterCR.

Record reader := {
  state : mode;
  field : string;
  fields : list string;
  records : list (list string)
}.

Definition add_char (c : ascii) (m : mode) (σ : reader) : reader :=
  {| state := m; field := field σ ++ String c ""; fields := fields σ;
     records := records σ |}.

Definition save_field (m : mode) (σ : reader) : reader :=
  {| state := m; field := ""; fields := (fields σ ++ [field σ])%list;
     records := records σ |}.

Definition end_record (m : mode) (σ : reader) : reader :=
  {| state := m; field := ""; fields := [];
     records := (records σ ++ [fields σ])%list |}.

Definition enter (m : mode) (σ : reader) : reader :=
  {| state := m; field := field σ; fields := fields σ; records := records σ |}.

Definition start_field (σ : reader) (c : ascii) : reader :=
  match classify c with
  | Comma => save_field StartField σ
  | Quote => enter InQuotedField σ
  | CarriageReturn => end_record AfterCR (save_field StartField σ)
  | LineFeed => end_record StartRecord (save_field StartField σ)
  | Other => add_char c InField σ
  end.

Definition start_record (σ : reader) (c : ascii) : reader :=
  match classify c with
  | CarriageReturn => end_record AfterCR σ
  | LineFeed => end_record StartRecord σ
  | _ => start_field σ c
  end.

Definition step (σ : reader) (c : ascii) : reader :=
  match state σ with
  | StartRecord => start_record σ c
  | AfterCR =>
      match classify c with
      | LineFeed => enter StartRecord σ
      | _ => start_record σ c
      end
  | StartField => start_field σ c
  | InField =>
      match classify c with
      | Comma => save_field StartField σ
      | CarriageReturn => end_record AfterCR (save_field StartField σ)
      | LineFeed => end_record StartRecord (save_field StartField σ)
      | _ => add_char c InField σ
      end
  | InQuotedField =>
      match classify c with
      | Quote => enter QuoteInQuotedField σ
      | _ => add_char c InQuotedField σ
      end
  | QuoteInQuotedField =>
      match classify c with
      | Quote => add_char c InQuotedField σ
      | Comma => save_field StartField σ
      | CarriageReturn => end_record AfterCR (save_field StartField σ)
      | LineFeed => end_record StartRecord (save_field StartField σ)
      | Other => add_char c InField σ
      end
  end.

Fixpoint feed (σ : reader) (s : string) : reader :=
  match s with
  | EmptyString => σ
  | String c s' => feed (step σ c) s'
  end.

(** At the end of the text a record under way is closed. *)
Definition finish (σ : reader) : list (list string) :=
  match state σ with
  | StartRecord | AfterCR => records σ
  | _ => (records σ ++ [fields σ ++ [field σ]])%list
  end.

Definition read_csv (text : string) : list (list string) :=
  finish (feed {| state := StartRecord; field := ""; fields := []; records := [] |} text).

(** The state the reader is in when it has read a written field. *)
Definition held (m : mode) (f : string) : mode :=
  if needs_quotes f then QuoteInQuotedField
  else match f with
       | EmptyString => m
       | String _ _ => InField
       end.

End Reader.

Import Reader.

(** A stand-in encoder for concrete runs: the pixels' channels, one byte
    each, row after row. *)
Definition channel_byte (c : Z) : Byte.byte :=
  byte_of_ascii (ascii_of_N (Z.to_N c)).

Definition raw_bytes (img : Image) : list Byte.byte :=
  row ← img; '(r, g, b, a) ← row; channel_byte <$> [r; g; b; a].

#[export] Instance raw_encoder : PngEncoder := {| save_png := raw_bytes |}.

(** The two fill rules obey the laws. *)
Lemma inscribed_in_box x0 y0 x1 y1 px py :
  inscribed (x0, y0, x1, y1) px py = true → x0 ≤ px ≤ x1 ∧ y0 ≤ py ≤ y1.
Proof. unfold inscribed. rewrite !andb_true_iff, !Z.leb_le. lia. Qed.

Lemma inscribed_centre x y r :
  1 ≤ r → inscribed (x - r, y - r, x + r, y + r) x y = true.
Proof.
intros Hr. unfold inscribed.
rewrite !andb_true_iff, !Z.leb_le.
replace (2 * x - (x - r + (x + r))) with 0 by lia.
replace (2 * y - (y - r + (y + r))) with 0 by lia.
repeat split; lia.
Qed.

Lemma boxed_in_box x0 y0 x1 y1 px py :
  boxed (x0, y0, x1, y1) px py = true → x0 ≤ px ≤ x1 ∧ y0 ≤ py ≤ y1.
Proof. unfold boxed. rewrite !andb_true_iff, !Z.leb_le. lia. Qed.

Lemma boxed_centre x y r :
  1 ≤ r → boxed (x - r, y - r, x + r, y + r) x y = true.
Proof. intros Hr. unfold boxed. rewrite !andb_true_iff, !Z.leb_le. lia. Qed.

(** For the inscribed ellipse the dot is the disc of radius [r] around its
    centre. *)
Lemma inscribed_disc x y r px py :
  0 ≤ r →
  inscribed (x - r, y - r, x + r, y + r) px py = true ↔
  (px - x) * (px - x) + (py - y) * (py - y) ≤ r * r.
Proof.
intros Hr. unfold inscribed. rewrite !andb_true_iff, !Z.leb_le.
replace (2 * px - (x - r + (x + r))) with (2 * (px - x)) by lia.
replace (2 * py - (y - r + (y + r))) with (2 * (py - y)) by lia.
replace (x + r - (x - r)) with (2 * r) by lia.
replace (y + r - (y - r)) with (2 * r) by lia.
set (dx := px - x). set (dy := py - y).
replace px with (x + dx) by (subst dx; lia).
replace py with (y + dy) by (subst dy; lia).
clearbody dx dy. split.
- intros [[[[H1 H2] H3] H4] H5].
  assert (Hdx : dx * dx ≤ r * r) by nia.
  assert (Hdy : dy * dy ≤ r * r) by nia.
  destruct (Z.eq_dec r 0) as [-> | Hr0]; [nia|].
  assert (H6 : 16 * (r * r) * (dx * dx + dy * dy) ≤ 16 * (r * r) * (r * r)) by nia.
  assert (Hpos : 0 < 16 * (r * r)) by nia.
  apply (Z.mul_le_mono_pos_l _ _ (16 * (r * r)) Hpos). exact H6.
- intros Hd.
  assert (Hdx : dx * dx ≤ r * r) by nia.
  assert (Hdy : dy * dy ≤ r * r) by nia.
  repeat split; nia.
Qed.

#[export] Instance inscribed_fill : EllipseFill :=
  {| inside := inscribed;
     inside_box := inscribed_in_box;
     inside_centre := inscribed_centre |}.

Definition boxed_fill : EllipseFill :=
  {| inside := boxed;
     inside_box := boxed_in_box;
     inside_centre := boxed_centre |}.

(** ** Pixels of a drawing *)

Section Drawing.
Context `{EllipseFill}.

Lemma getpixel_ellipse img xy fill x y :
  getpixel (ellipse img xy fill) x y =
  (λ c, if inside xy x y then fill else c) <$> getpixel img x y.
Proof.
unfold getpixel, ellipse.
destruct (0 <=? x) eqn:Hx; [|reflexivity].
destruct (0 <=? y) eqn:Hy; [|reflexivity].
apply Z.leb_le in Hx, Hy. cbn [andb].
rewrite list_lookup_imap.
destruct (img !! Z.to_nat y) as [row|]; [|reflexivity].
cbn [fmap option_fmap option_map mbind option_bind].
rewrite list_lookup_imap, !Z2Nat.id by assumption.
reflexivity.
Qed.

Lemma length_ellipse img xy fill : length (ellipse img xy fill) = length img.
Proof. unfold ellipse. apply length_imap. Qed.

Lemma width_ellipse img xy fill : width (ellipse img xy fill) = width img.
Proof.
destruct img as [|row img]; [reflexivity|].
unfold ellipse. cbn [imap width]. now rewrite length_imap.
Qed.

Lemma height_ellipse img xy fill : height (ellipse img xy fill) = height img.
Proof. unfold height. now rewrite length_ellipse. Qed.

(** The loop of line 38, pixel by pixel: a pixel some dot covers ends up red,
    every other pixel keeps its colour. *)
Lemma getpixel_red_dots r dots img px py :
  getpixel
    (fold_left (λ im '(x, y), ellipse im (x - r, y - r, x + r, y + r) red) dots img)
    px py =
  (λ c, if covered r dots px py then red else c) <$> getpixel img px py.
Proof.
revert img. induction dots as [|[x y] dots IH]; intros img; cbn [fold_left covered existsb].
- now destruct (getpixel img px py).
- rewrite IH, getpixel_ellipse. fold (covered r dots px py).
  destruct (getpixel img px py) as [c|]; [|reflexivity].
  cbn [fmap option_fmap option_map].
  destruct (inside _ px py), (covered r dots px py); reflexivity.
Qed.

Lemma size_red_dots r dots img :
  let out :=
    fold_left (λ im '(x, y), ellipse im (x - r, y - r, x + r, y + r) red) dots img in
  width out = width img ∧ height out = height img.
Proof.
revert img. induction dots as [|[x y] dots IH]; intros img; cbn [fold_left]; [easy|].
cbn zeta in IH. destruct (IH (ellipse img (x - r, y - r, x + r, y + r) red)) as [Hw Hh].
now rewrite Hw, Hh, width_ellipse, height_ellipse.
Qed.

(** The whole renderer, pixel by pixel. *)
Lemma getpixel_get_image_with_dots base dots current_dot dot_size px py :
  let r := dot_size / 2 in
  getpixel (get_image_with_dots base dots current_dot dot_size) px py =
  (λ c,
     match current_dot with
     | Some (cx, cy) =>
         if inside (cx - r, cy - r, cx + r, cy + r) px py then blue
         else if covered r dots px py then red else c
     | None => if covered r dots px py then red else c
     end) <$> getpixel base px py.
Proof.
intros r. unfold get_image_with_dots. fold r.
destruct current_dot as [[cx cy]|].
- rewrite getpixel_ellipse, getpixel_red_dots.
  now destruct (getpixel base px py).
- apply getpixel_red_dots.
Qed.

Lemma size_get_image_with_dots base dots current_dot dot_size :
  let out := get_image_with_dots base dots current_dot dot_size in
  width out = width base ∧ height out = height base.
Proof.
unfold get_image_with_dots.
destruct (size_red_dots (dot_size / 2) dots base) as [Hw Hh].
destruct current_dot as [[cx cy]|]; cbn zeta.
- now rewrite width_ellipse, height_ellipse.
- easy.
Qed.

Lemma covered_true r dots px py :
  covered r dots px py = true ↔
  ∃ x y, (x, y) ∈ dots ∧ inside (x - r, y - r, x + r, y + r) px py = true.
Proof.
unfold covered. rewrite existsb_exists. split.
- intros [[x y] [Hin Hc]]. exists x, y. now rewrite list_elem_of_In.
- intros (x & y & Hin & Hc). exists (x, y). now rewrite <- list_elem_of_In.
Qed.

End Drawing.

(** ** Running pieces of the script *)

Lemma run_bind {A B} (m : Script A) (k : A → Script B) st page :
  (m ≫= k) st page =
  match m st page with
  | (inl a, st', page') => k a st' page'
  | (inr s, st', page') => (inr s, st', page')
  end.
Proof. reflexivity. Qed.

(** Evaluate the script's primitive steps where their arguments allow it. *)
Ltac run :=
  repeat first
    [ rewrite run_bind
    | progress cbn [emit gets modify raise st_rerun when mret script_ret] ].

Lemma truthy_true s : truthy s = true ↔ s ≠ ""%string.
Proof.
unfold truthy. rewrite negb_true_iff. split.
- intros E ->. discriminate.
- intros Hs. apply String.eqb_neq. exact Hs.
Qed.

Lemma nonempty_true {A} (l : list A) : nonempty l = true ↔ l ≠ [].
Proof. destruct l; simpl; split; congruence. Qed.

Lemma keeps_ret {A} P (a : A) : keeps P (mret a).
Proof. intros st page HP. exact HP. Qed.

Lemma keeps_bind {A B} P (m : Script A) (k : A → Script B) :
  keeps P m → (∀ a, keeps P (k a)) → keeps P (m ≫= k).
Proof.
intros Hm Hk st page HP. rewrite run_bind.
specialize (Hm st page HP). unfold state_of in *.
destruct (m st page) as [[[a|s] st'] page']; simpl in *.
- now apply Hk.
- exact Hm.
Qed.

Lemma keeps_gets {A} P (f : session_state → A) : keeps P (gets f).
Proof. intros st page HP. exact HP. Qed.

Lemma keeps_emit P e : keeps P (emit e).
Proof. intros st page HP. exact HP. Qed.

Lemma keeps_raise {A} P e : keeps P (@raise A e).
Proof. intros st page HP. exact HP. Qed.

Lemma keeps_rerun {A} P : keeps P (@st_rerun A).
Proof. intros st page HP. exact HP. Qed.

Lemma keeps_modify (P : session_state → Prop) f :
  (∀ st, P st → P (f st)) → keeps P (modify f).
Proof. intros Hf st page HP. now apply Hf. Qed.

Lemma keeps_when P b m : keeps P m → keeps P (when b m).
Proof. intros Hm. destruct b; [exact Hm | apply keeps_ret]. Qed.

Lemma keeps_for_each {A} P (xs : list A) body :
  (∀ x, keeps P (body x)) → keeps P (for_each xs body).
Proof.
intros Hb. induction xs as [|x xs IH]; cbn [for_each].
- apply keeps_ret.
- apply keeps_bind; [apply Hb | intros _; exact IH].
Qed.

Lemma keeps_the_image P base_image : keeps P (the_image base_image).
Proof. destruct base_image; [apply keeps_ret | apply keeps_raise]. Qed.

Lemma keeps_st_slider P args set : keeps P (st_slider args set).
Proof.
destruct args as [[min_value max_value] value]. unfold st_slider.
destruct (min_value <? max_value); [apply keeps_ret | apply keeps_raise].
Qed.

Create HintDb keeps.

#[local] Hint Resolve keeps_ret keeps_gets keeps_emit keeps_raise keeps_rerun
  keeps_when keeps_for_each keeps_the_image keeps_st_slider : keeps.

(** ** The sidebar handlers *)

Section Sidebar.
Context `{EllipseFill, PngEncoder}.

(** C1. With a non-empty label and at least one pending dot, the Save Entry
    handler appends exactly one entry to the end of the entry list, made of
    the clock reading, the label, the encoded picture of the base image with
    the pending dots drawn at the chosen dot size and no preview dot, and the
    dot size; the list grows by one and the pending dots are empty after. *)
Theorem save_entry_appends base label dot_size now st page :
  label ≠ ""%string →
  dots st ≠ [] →
  let img_bytes := save_png (get_image_with_dots base (dots st) None dot_size) in
  let r := save_entry (Some base) label dot_size now st page in
  r = (inl tt,
       {| dots := []; entries := entries st ++ [(now, label, img_bytes, dot_size)] |},
       page ++ [st_success "Entry saved."])
  ∧ length (entries (state_of r)) = S (length (entries st))
  ∧ dots (state_of r) = [].
Proof.
intros Hlabel Hdots img_bytes r.
assert (Hr : r = (inl tt,
       {| dots := []; entries := entries st ++ [(now, label, img_bytes, dot_size)] |},
       page ++ [st_success "Entry saved."])).
{ subst r. unfold save_entry. rewrite run_bind. cbn [gets].
  apply truthy_true in Hlabel. apply nonempty_true in Hdots.
  rewrite Hlabel, Hdots. reflexivity. }
rewrite Hr. split; [reflexivity|]. split; [|reflexivity].
cbn. rewrite length_app. cbn. lia.
Qed.

(** C2. With an empty label or no pending dot, the Save Entry handler shows
    the warning and leaves the session state as it was: the same entries,
    the same pending dots. *)
Theorem save_entry_rejected base_image label dot_size now st page :
  label = ""%string ∨ dots st = [] →
  let r := save_entry base_image label dot_size now st page in
  r = (inl tt, st, page ++ [st_warning "Please add at least one dot and a label."])
  ∧ entries (state_of r) = entries st
  ∧ length (entries (state_of r)) = length (entries st)
  ∧ dots (state_of r) = dots st.
Proof.
intros Hbad r.
assert (Hr : r = (inl tt, st, page ++ [st_warning "Please add at least one dot and a label."])).
{ subst r. unfold save_entry. rewrite run_bind. cbn [gets].
  destruct Hbad as [-> | ->]; [reflexivity|].
  now rewrite andb_false_r. }
now rewrite Hr.
Qed.

End Sidebar.

(** C5. Adding a dot and then undoing once gives back the session state from
    before the addition, pending dots included; undoing with no pending dot
    changes nothing. *)
Theorem undo_after_add x y st page page' :
  let st1 := state_of (add_dot x y st page) in
  dots st1 = dots st ++ [(x, y)]
  ∧ undo_last_dot st1 page' = (inl tt, st, page')
  ∧ ∀ es page0,
      undo_last_dot {| dots := []; entries := es |} page0 =
      (inl tt, {| dots := []; entries := es |}, page0).
Proof.
cbn zeta. split; [reflexivity|]. split; [|reflexivity].
destruct st as [ds es].
unfold undo_last_dot, add_dot, state_of, when, modify, gets, st_rerun.
rewrite !run_bind. cbn [fst snd dots entries].
replace (nonempty (ds ++ [(x, y)])) with true by now destruct ds.
cbn [dots entries]. now rewrite removelast_last.
Qed.

(** C10. Each handler writes its own list only: adding a dot, undoing and
    clearing leave the entry list as it was, images included, and deleting
    an entry leaves the pending dots as they were. *)
Theorem handlers_write_their_own_list x y i clicked st page :
  entries (state_of (add_dot x y st page)) = entries st
  ∧ entries (state_of (undo_last_dot st page)) = entries st
  ∧ entries (state_of (clear_all_dots st page)) = entries st
  ∧ dots (state_of (delete_entry i st page)) = dots st
  ∧ dots (state_of (saved_entries clicked st page)) = dots st.
Proof.
split; [reflexivity|]. split.
{ unfold undo_last_dot. rewrite run_bind. cbn [gets]. now destruct (nonempty (dots st)). }
split; [reflexivity|].
assert (Hdel : ∀ j, keeps (λ s, dots s = dots st) (delete_entry j)).
{ intros j. unfold delete_entry. apply keeps_bind; [auto with keeps|].
  intros es. destruct (decide _); [|auto with keeps].
  apply keeps_modify. now intros. }
split; [now apply Hdel|].
assert (Hloop : keeps (λ s, dots s = dots st) (saved_entries clicked)).
{ unfold saved_entries. apply keeps_bind; [auto with keeps|].
  intros es. destruct (nonempty es); [|auto with keeps].
  apply keeps_bind; [auto with keeps|]. intros _.
  apply keeps_for_each. intros [j [[[date label] img_bytes] size]].
  unfold entry_row. cbn [fst snd].
  repeat (apply keeps_bind; [auto with keeps|]; intros _).
  apply keeps_when. apply keeps_bind; [apply Hdel | auto with keeps]. }
now apply Hloop.
Qed.

(** ** The saved entries and their delete buttons *)

Lemma for_each_app {A} (xs ys : list A) body st page :
  for_each (xs ++ ys) body st page = (for_each xs body;; for_each ys body) st page.
Proof.
revert st page. induction xs as [|x xs IH]; intros st page; cbn [for_each app].
- reflexivity.
- rewrite !run_bind. destruct (body x st page) as [[[[]|s] st'] page']; [|reflexivity].
  rewrite IH. now rewrite run_bind.
Qed.

(** A turn of the loop whose delete button was not the one clicked only
    adds to the page. *)
Lemma entry_row_other clicked j e st page :
  clicked ≠ Some (Delete j) →
  ∃ page', entry_row clicked j e st page = (inl tt, st, page').
Proof.
intros Hne. destruct e as [[[date label] img_bytes] size].
unfold entry_row, pressed. rewrite bool_decide_eq_false_2 by exact Hne.
eexists. reflexivity.
Qed.

Lemma entry_rows_other clicked (l : list (nat * entry)) st page :
  (∀ je, je ∈ l → clicked ≠ Some (Delete je.1)) →
  ∃ page', for_each l (λ ie, entry_row clicked ie.1 ie.2) st page = (inl tt, st, page').
Proof.
revert page. induction l as [|[j e] l IH]; intros page Hl; cbn [for_each].
- eexists. reflexivity.
- destruct (entry_row_other clicked j e st page) as [page1 E1].
  { apply (Hl (j, e)). left. }
  rewrite run_bind. cbn [fst snd]. rewrite E1.
  apply IH. intros je Hje. apply Hl. now right.
Qed.

(** The turn whose delete button was clicked pops its entry and asks for a
    rerun. *)
Lemma entry_row_clicked i e st page :
  (i < length (entries st))%nat →
  ∃ page',
    entry_row (Some (Delete i)) i e st page =
    (inr Rerun, {| dots := dots st; entries := delete i (entries st) |}, page').
Proof.
intros Hi. destruct e as [[[date label] img_bytes] size].
unfold entry_row, pressed, delete_entry. rewrite bool_decide_eq_true_2 by reflexivity.
run. destruct (decide (i < length (entries st))%nat) as [_|[]]; [|exact Hi].
run. eexists. reflexivity.
Qed.

Lemma imap_pair_middle {A} (l : list A) i x :
  l !! i = Some x →
  ∃ rest, imap pair l = imap pair (take i l) ++ (i, x) :: rest.
Proof.
intros Hx. pose proof (lookup_lt_Some _ _ _ Hx) as Hi.
assert (E : imap pair l = imap pair (take i l ++ x :: drop (S i) l))
  by now rewrite take_drop_middle.
rewrite E, imap_app. cbn [imap]. rewrite length_take_le by lia.
rewrite Nat.add_0_r. eexists. reflexivity.
Qed.

Lemma saved_entries_delete i st page :
  (i < length (entries st))%nat →
  ∃ page',
    saved_entries (Some (Delete i)) st page =
    (inr Rerun, {| dots := dots st; entries := delete i (entries st) |}, page').
Proof.
intros Hi. unfold saved_entries. run.
destruct (lookup_lt_is_Some_2 (entries st) i Hi) as [e He].
replace (nonempty (entries st)) with true
  by (destruct (entries st); [discriminate He | reflexivity]).
run. destruct (imap_pair_middle (entries st) i e He) as [rest ->].
rewrite for_each_app, run_bind.
destruct (entry_rows_other (Some (Delete i)) (imap pair (take i (entries st))) st
            (page ++ [st_dataframe
               ((λ '(date, label, _, size), (date, label, size)) <$> entries st)]))
  as [page1 E1].
{ intros je Hje. apply elem_of_lookup_imap in Hje as (j & y & -> & Hj).
  apply lookup_lt_Some in Hj. rewrite length_take in Hj.
  cbn [fst]. intros [= E]. lia. }
rewrite E1. cbn [for_each]. rewrite run_bind. cbn [fst snd].
destruct (entry_row_clicked i e st page1 Hi) as [page2 E2].
rewrite E2. eexists. reflexivity.
Qed.

(** C6. Clicking the delete button of the entry at a valid position [i]
    removes exactly that entry: the list is one shorter, the entries before
    [i] keep their positions, the entries after it move down by one and so
    keep their order, and the run ends in a rerun. *)
Theorem delete_removes_entry i st page :
  (i < length (entries st))%nat →
  let r := saved_entries (Some (Delete i)) st page in
  ending_of r = inr Rerun
  ∧ entries (state_of r) = take i (entries st) ++ drop (S i) (entries st)
  ∧ length (entries (state_of r)) = (length (entries st) - 1)%nat
  ∧ (∀ j, (j < i)%nat → entries (state_of r) !! j = entries st !! j)
  ∧ (∀ j, (i ≤ j)%nat → entries (state_of r) !! j = entries st !! S j).
Proof.
intros Hi r. destruct (saved_entries_delete i st page Hi) as [page' E].
subst r. rewrite E. unfold ending_of, state_of. cbn [fst snd entries].
split; [reflexivity|]. split; [apply delete_take_drop|].
split; [apply length_delete, lookup_lt_is_Some_2, Hi|].
split; intros j Hj.
- now apply list_lookup_delete_lt.
- now apply list_lookup_delete_ge.
Qed.

(** ** Labels of saved entries *)

Lemma keeps_labelled_delete_entry i : keeps labelled (delete_entry i).
Proof.
unfold delete_entry. apply keeps_bind; [auto with keeps|].
intros es. destruct (decide _); [|auto with keeps].
apply keeps_modify. intros st. unfold labelled. cbn [entries].
apply Forall_delete.
Qed.

Lemma keeps_labelled_saved_entries clicked : keeps labelled (saved_entries clicked).
Proof.
unfold saved_entries. apply keeps_bind; [auto with keeps|].
intros es. destruct (nonempty es); [|auto with keeps].
apply keeps_bind; [auto with keeps|]. intros _.
apply keeps_for_each. intros [j [[[date label] img_bytes] size]].
unfold entry_row. cbn [fst snd].
repeat (apply keeps_bind; [auto with keeps|]; intros _).
apply keeps_when. apply keeps_bind; [apply keeps_labelled_delete_entry | auto with keeps].
Qed.

Section Labels.
Context `{EllipseFill, PngEncoder}.

Lemma keeps_labelled_save_entry base_image label dot_size now :
  keeps labelled (save_entry base_image label dot_size now).
Proof.
unfold save_entry. apply keeps_bind; [auto with keeps|]. intros ds.
destruct (truthy label) eqn:Hlabel; cbn [andb]; [|auto with keeps].
destruct (nonempty ds); [|auto with keeps].
apply truthy_true in Hlabel.
apply keeps_bind; [auto with keeps|]. intros base.
apply keeps_bind.
{ apply keeps_modify. intros st Hst. unfold labelled in *. cbn [entries].
  apply Forall_app. split; [exact Hst|]. now repeat constructor. }
intros _. apply keeps_bind; [|auto with keeps].
apply keeps_modify. now intros st Hst.
Qed.

Lemma keeps_labelled_script listdir label dot_size x y now clicked :
  keeps labelled (script listdir label dot_size x y now clicked).
Proof.
unfold script. destruct (load_body_image listdir) as [base_image notices].
apply keeps_bind; [auto with keeps|]. intros _.
apply keeps_bind; [apply keeps_when, keeps_labelled_save_entry|]. intros _.
apply keeps_bind.
{ apply keeps_when. unfold undo_last_dot.
  apply keeps_bind; [auto with keeps|]. intros ds.
  apply keeps_when, keeps_modify. now intros st Hst. }
intros _. apply keeps_bind.
{ apply keeps_when, keeps_modify. now intros st Hst. }
intros _. apply keeps_bind; [auto with keeps|]. intros base.
apply keeps_bind; [auto with keeps|]. intros x'.
apply keeps_bind; [auto with keeps|]. intros y'.
apply keeps_bind; [auto with keeps|]. intros ds.
apply keeps_bind; [auto with keeps|]. intros _.
apply keeps_bind.
{ apply keeps_when. unfold add_dot.
  apply keeps_bind; [|auto with keeps]. apply keeps_modify. now intros st Hst. }
intros _. apply keeps_bind; [apply keeps_labelled_saved_entries|]. intros _.
apply keeps_when. unfold prepare_csv.
apply keeps_bind; auto with keeps.
Qed.

(** C9. In every session state the program can reach, by any sequence of
    runs with any inputs and clicks, every saved entry has a non-empty
    label. *)
Theorem reachable_entries_labelled st :
  reachable st → Forall (λ e, entry_label e ≠ ""%string) (entries st).
Proof.
induction 1 as [|st listdir label dot_size x y now clicked page _ IH].
- constructor.
- now apply keeps_labelled_script.
Qed.

End Labels.

Lemma for_each_emit notices st page :
  for_each notices emit st page = (inl tt, st, page ++ notices).
Proof.
revert page. induction notices as [|e notices IH]; intros page; cbn [for_each].
- now rewrite app_nil_r.
- run. rewrite IH. now rewrite <- app_assoc.
Qed.

(** ** A run of the script as a transition of the marker store *)

Lemma saved_entries_no_delete clicked st page :
  (∀ i, (i < length (entries st))%nat → clicked ≠ Some (Delete i)) →
  ∃ page', saved_entries clicked st page = (inl tt, st, page').
Proof.
intros Hno. unfold saved_entries. run.
destruct (nonempty (entries st)); [|eexists; reflexivity].
run. apply entry_rows_other.
intros je Hje. apply elem_of_lookup_imap in Hje as (j & e & -> & Hj).
apply Hno. cbn [fst]. now apply lookup_lt_Some in Hj.
Qed.

Lemma undo_last_dot_state st page :
  undo_last_dot st page =
  (inl tt, {| dots := removelast (dots st); entries := entries st |}, page).
Proof.
unfold undo_last_dot. run. destruct st as [[|d ds] es]; reflexivity.
Qed.

Lemma pressed_same b : pressed (Some b) b = true.
Proof. unfold pressed. now apply bool_decide_eq_true_2. Qed.

Lemma pressed_other b b' : b ≠ b' → pressed (Some b) b' = false.
Proof. intros Hne. unfold pressed. apply bool_decide_eq_false_2. congruence. Qed.

Lemma pressed_none b : pressed None b = false.
Proof. reflexivity. Qed.

(** Settle which button tests of the script succeed for a given click. *)
Ltac press :=
  repeat match goal with
         | |- context [pressed None ?b] => rewrite (pressed_none b)
         | |- context [pressed (Some ?a) ?b] =>
             first [ rewrite (pressed_same a)
                   | rewrite (pressed_other a b) by discriminate ]
         end.

Ltac skip_entries :=
  match goal with
  | |- context [saved_entries ?c ?s ?p] =>
      let page' := fresh "page'" in
      destruct (saved_entries_no_delete c s p) as [page' ->]; [discriminate|]
  end.

Lemma width_nonneg (img : list (list rgba)) : 0 ≤ width img.
Proof. destruct img; cbn [width]; lia. Qed.

Lemma x_slider_run b x st page :
  st_slider (x_slider b) x st page =
  if width b =? 1 then (inr (Raise StreamlitAPIException), st, page)
  else (inl x, st, page).
Proof.
pose proof (width_nonneg b) as Hw. unfold st_slider, x_slider.
destruct (width b =? 1) eqn:E1.
- apply Z.eqb_eq in E1. rewrite E1. reflexivity.
- apply Z.eqb_neq in E1. destruct (0 <? width b) eqn:E0.
  + apply Z.ltb_lt in E0.
    replace (0 <? width b - 1) with true by (symmetry; apply Z.ltb_lt; lia).
    reflexivity.
  + reflexivity.
Qed.

Lemma y_slider_run b y st page :
  st_slider (y_slider b) y st page =
  if height b =? 1 then (inr (Raise StreamlitAPIException), st, page)
  else (inl y, st, page).
Proof.
assert (Hh : 0 ≤ height b) by (unfold height; lia). unfold st_slider, y_slider.
destruct (height b =? 1) eqn:E1.
- apply Z.eqb_eq in E1. rewrite E1. reflexivity.
- apply Z.eqb_neq in E1. destruct (0 <? height b) eqn:E0.
  + apply Z.ltb_lt in E0.
    replace (0 <? height b - 1) with true by (symmetry; apply Z.ltb_lt; lia).
    reflexivity.
  + reflexivity.
Qed.

(** Pass the two sliders: either one refuses its range and the run is over,
    or both give their positions and the run goes on. *)
Ltac sliders :=
  unfold ending, sliders_refused;
  rewrite x_slider_run;
  match goal with
  | |- context [width ?b =? 1] => destruct (width b =? 1); cbn [orb]
  end;
  [ eexists; reflexivity
  | run; rewrite y_slider_run;
    match goal with
    | |- context [height ?b =? 1] => destruct (height b =? 1)
    end;
    [ eexists; reflexivity | run ] ].

Section Runs.
Context `{EllipseFill, PngEncoder}.

(** A run with the base image loaded, in full: how it ends and the session
    state it leaves. *)
Lemma script_run listdir b notices label dot_size x y now clicked st page :
  load_body_image listdir = (Some b, notices) →
  ∃ page',
    script listdir label dot_size x y now clicked st page =
    (ending b clicked st,
     effect b label dot_size x y now
       (if sliders_refused b then sidebar_only clicked else clicked) st,
     page').
Proof.
intros Hload. unfold script. rewrite Hload.
rewrite run_bind, for_each_emit. unfold effect.
destruct clicked as [[| | | |i|]|]; press; run; cbn [the_image sidebar_only].
- (* Save Entry *)
  unfold save_entry. run.
  destruct (truthy label && nonempty (dots st)); run; cbn [the_image]; run;
    sliders; skip_entries; eexists; reflexivity.
- (* Undo Last Dot *)
  rewrite undo_last_dot_state. run. sliders. skip_entries. eexists. reflexivity.
- (* Clear All Dots *)
  unfold clear_all_dots. run. sliders. skip_entries. eexists. reflexivity.
- (* Add Dot *)
  run. sliders. unfold add_dot, st_rerun. run. eexists. reflexivity.
- (* Delete *)
  run. sliders. destruct (decide (i < length (entries st))%nat) as [Hi|Hi].
  + match goal with
    | |- context [saved_entries ?c ?s ?p] =>
        destruct (saved_entries_delete i s p Hi) as [page' ->]
    end.
    eexists. reflexivity.
  + match goal with
    | |- context [saved_entries ?c ?s ?p] =>
        destruct (saved_entries_no_delete c s p) as [page' ->]
    end.
    { intros j Hj [= ->]. contradiction. }
    eexists. reflexivity.
- (* Prepare CSV *)
  run. sliders. skip_entries. unfold prepare_csv. run. eexists. reflexivity.
- (* a run no button started *)
  run. sliders. skip_entries. eexists. reflexivity.
Qed.

(** X17. With the base image loaded, a run leaves the session state that
    [effect] gives for the button clicked, whatever else it shows: the one
    handler of that button has run, a delete click on an entry that does not
    exist and a run no button started change nothing.  For an image one
    pixel wide or high the sliders stop the run, and only the buttons of the
    sidebar, which come before them, have their effect. *)
Theorem script_effect listdir b notices label dot_size x y now clicked st page :
  load_body_image listdir = (Some b, notices) →
  state_of (script listdir label dot_size x y now clicked st page)
  = effect b label dot_size x y now
      (if sliders_refused b then sidebar_only clicked else clicked) st.
Proof.
intros Hload.
destruct (script_run listdir b notices label dot_size x y now clicked st page Hload)
  as [page' ->].
reflexivity.
Qed.

End Runs.

(** ** The image loader *)

Lemma width_new_image w h c : (0 < h)%nat → width (new_image w h c) = Z.of_nat w.
Proof.
intros Hh. destruct h as [|h]; [lia|].
unfold new_image. cbn [replicate width]. now rewrite length_replicate.
Qed.

Lemma height_new_image w h c : height (new_image w h c) = Z.of_nat h.
Proof. unfold height, new_image. now rewrite length_replicate. Qed.

Lemma getpixel_new_image w h c x y :
  0 ≤ x < Z.of_nat w → 0 ≤ y < Z.of_nat h → getpixel (new_image w h c) x y = Some c.
Proof.
intros Hx Hy. unfold getpixel, new_image.
replace (0 <=? x) with true by (symmetry; apply Z.leb_le; lia).
replace (0 <=? y) with true by (symmetry; apply Z.leb_le; lia).
cbn [andb]. rewrite lookup_replicate_2 by lia.
cbn [mbind option_bind]. now rewrite lookup_replicate_2 by lia.
Qed.

(** No candidate file: the warning, and a white canvas of 500 by 800. *)
Lemma load_body_image_missing listdir :
  candidates listdir = [] →
  ∃ img,
    load_body_image listdir =
      (Some img, [st_warning "No body outline image found. Using a blank placeholder."])
    ∧ width img = 500 ∧ height img = 800
    ∧ ∀ x y, 0 ≤ x < 500 → 0 ≤ y < 800 → getpixel img x y = Some white.
Proof.
intros Hc. exists (new_image 500 800 white).
unfold load_body_image. fold (candidates listdir). rewrite Hc.
split; [reflexivity|].
split; [now rewrite width_new_image by lia|].
split; [now rewrite height_new_image|].
intros x y Hx Hy. apply getpixel_new_image.
- change (Z.of_nat 500) with 500. exact Hx.
- change (Z.of_nat 800) with 800. exact Hy.
Qed.

(** The first candidate decodes: it is the base image, with no notice. *)
Lemma load_body_image_decoded listdir name img rest :
  candidates listdir = (name, inl img) :: rest →
  load_body_image listdir = (Some img, []).
Proof.
intros Hc. unfold load_body_image. fold (candidates listdir). now rewrite Hc.
Qed.

(** The first candidate does not decode: the error, and no image at all. *)
Lemma load_body_image_undecodable listdir name e rest :
  candidates listdir = (name, inr e) :: rest →
  load_body_image listdir =
    (None, [st_error ("Error loading image '" ++ name ++ "': " ++ e)]).
Proof.
intros Hc. unfold load_body_image. fold (candidates listdir). now rewrite Hc.
Qed.

Section Startup.
Context `{EllipseFill, PngEncoder}.

(** Without a base image no run gets past line 81. *)
Lemma script_without_image listdir notices label dot_size x y now clicked st page :
  load_body_image listdir = (None, notices) →
  ending_of (script listdir label dot_size x y now clicked st page)
  = inr (Raise AttributeError).
Proof.
intros Hload. unfold script. rewrite Hload.
rewrite run_bind, for_each_emit.
unfold pressed.
destruct (bool_decide (clicked = Some SaveEntry)) eqn:Hsave.
- apply bool_decide_eq_true in Hsave. subst clicked.
  rewrite !bool_decide_eq_false_2 by discriminate.
  unfold save_entry. run.
  destruct (truthy label && nonempty (dots st)); run; reflexivity.
- run. destruct (bool_decide (clicked = Some UndoLastDot)).
  + unfold undo_last_dot. run. destruct (nonempty (dots st)); run;
      destruct (bool_decide (clicked = Some ClearAllDots)); reflexivity.
  + run. destruct (bool_decide (clicked = Some ClearAllDots)); reflexivity.
Qed.

(** C3, on the undecodable file.  With a file [body.png] in the working
    directory that does not decode, [load_body_image] reports the error and
    returns no image, not the white canvas, and every run of the script then
    stops on [AttributeError] where the image is first used. *)
Theorem undecodable_image_is_fatal label dot_size x y now clicked st page :
  let listdir : directory := [("body.png"%string, inr "cannot identify image file"%string)] in
  load_body_image listdir =
    (None, [st_error "Error loading image 'body.png': cannot identify image file"])
  ∧ ending_of (script listdir label dot_size x y now clicked st page)
    = inr (Raise AttributeError).
Proof.
cbn zeta. split; [reflexivity|].
now apply script_without_image
  with (notices := [st_error "Error loading image 'body.png': cannot identify image file"]).
Qed.

End Startup.

(** ** What the renderer draws *)

Section Rendering.
Context `{EllipseFill}.

Lemma outside_box_not_covered r dots px py :
  (∀ x y, (x, y) ∈ dots → ¬ (x - r ≤ px ≤ x + r ∧ y - r ≤ py ≤ y + r)) →
  covered r dots px py = false.
Proof.
intros Hout. apply not_true_is_false. intros Hc.
apply covered_true in Hc as (x & y & Hin & Hc).
apply inside_box in Hc. now apply (Hout x y).
Qed.

(** A pixel outside every dot's bounding square keeps its colour. *)
Lemma getpixel_outside_boxes base dots dot_size px py :
  (∀ x y, (x, y) ∈ dots →
     ¬ (x - dot_size / 2 ≤ px ≤ x + dot_size / 2 ∧ y - dot_size / 2 ≤ py ≤ y + dot_size / 2)) →
  getpixel (get_image_with_dots base dots None dot_size) px py = getpixel base px py.
Proof.
intros Hout. rewrite getpixel_get_image_with_dots. cbn zeta.
rewrite outside_box_not_covered by exact Hout.
now destruct (getpixel base px py).
Qed.

(** C4, as the code has it.  The dot size is a diameter: for a dot size of at
    least two, the least the slider gives, and no preview dot, the picture
    has the size of the base
    image; a pixel is red exactly when the ellipse of some pending dot, drawn
    in the square of half-side [dot_size // 2] around the dot, fills it, and
    has the colour of the base image otherwise; so every pending dot that
    lies in the image is red at its own position, and every pixel that
    differs from the base image lies in the square of some pending dot, hence
    within [dot_size] of it. *)
Theorem render_draws_dots base dots dot_size :
  2 ≤ dot_size →
  let r := dot_size / 2 in
  let out := get_image_with_dots base dots None dot_size in
  width out = width base ∧ height out = height base
  ∧ (∀ px py,
       getpixel out px py =
       (λ c, if covered r dots px py then red else c) <$> getpixel base px py)
  ∧ (∀ x y, (x, y) ∈ dots → is_Some (getpixel base x y) → getpixel out x y = Some red)
  ∧ (∀ px py, getpixel out px py ≠ getpixel base px py →
       ∃ x y, (x, y) ∈ dots
              ∧ x - r ≤ px ≤ x + r ∧ y - r ≤ py ≤ y + r
              ∧ (px - x) * (px - x) + (py - y) * (py - y) ≤ dot_size * dot_size).
Proof.
intros Hsize r out.
assert (Hr : 1 ≤ r ∧ 2 * r ≤ dot_size).
{ subst r. split; [apply Z.div_le_lower_bound; lia|]. apply Z.mul_div_le. lia. }
assert (Hpix : ∀ px py,
       getpixel out px py =
       (λ c, if covered r dots px py then red else c) <$> getpixel base px py).
{ intros px py. subst out. now rewrite getpixel_get_image_with_dots. }
destruct (size_get_image_with_dots base dots None dot_size) as [Hw Hh].
split; [exact Hw|]. split; [exact Hh|]. split; [exact Hpix|]. split.
- intros x y Hin [c Hc]. rewrite Hpix, Hc. cbn.
  replace (covered r dots x y) with true; [reflexivity|].
  symmetry. apply covered_true. exists x, y. split; [exact Hin|].
  apply inside_centre. lia.
- intros px py Hdiff. rewrite Hpix in Hdiff.
  destruct (covered r dots px py) eqn:Hc.
  + apply covered_true in Hc as (x & y & Hin & Hc).
    apply inside_box in Hc. exists x, y. split; [exact Hin|].
    split; [lia|]. split; [lia|]. nia.
  + exfalso. apply Hdiff. now destruct (getpixel base px py).
Qed.

End Rendering.

(** C4, as stated, fails.  On a white canvas of 20 by 20 with one pending dot
    at (10, 10) and dot size 6, the pixel (10, 15) is within 6 of the dot and
    stays white: the circle drawn has radius 3, red up to (10, 13) and white
    from (10, 14) on.  This holds for the inscribed ellipse and even when the
    whole bounding square is filled.  And with a preview dot at (3, 3) the
    pixel (3, 3), further than 6 from the pending dot, is no longer white. *)
Lemma radius_is_half_the_dot_size :
  let base := new_image 20 20 white in
  (10 - 10) * (10 - 10) + (15 - 10) * (15 - 10) ≤ 6 * 6
  ∧ getpixel base 10 15 = Some white
  ∧ getpixel (@get_image_with_dots inscribed_fill base [(10, 10)] None 6) 10 15 = Some white
  ∧ getpixel (@get_image_with_dots boxed_fill base [(10, 10)] None 6) 10 15 = Some white
  ∧ getpixel (@get_image_with_dots inscribed_fill base [(10, 10)] None 6) 10 13 = Some red
  ∧ getpixel (@get_image_with_dots inscribed_fill base [(10, 10)] None 6) 10 14 = Some white
  ∧ 6 * 6 < (3 - 10) * (3 - 10) + (3 - 10) * (3 - 10)
  ∧ getpixel base 3 3 = Some white
  ∧ getpixel (@get_image_with_dots inscribed_fill base [(10, 10)] (Some (3, 3)) 6) 3 3
    = Some blue.
Proof.
cbn zeta. split; [lia|].
do 5 (split; [vm_compute; reflexivity|]).
split; [lia|]. split; vm_compute; reflexivity.
Qed.

(** ** The renderer mutates only its own copy *)

Section Purity.
Context `{EllipseFill}.

Lemma draw_ellipse_run (h : list Mut.object) img im xy fill :
  h !! img = Some (Mut.PilImage im) →
  Mut.draw_ellipse img xy fill h = Some (tt, <[img := Mut.PilImage (ellipse im xy fill)]> h).
Proof.
intros Him. unfold Mut.draw_ellipse, Mut.bind, Mut.deref, Mut.assign.
rewrite Him. apply lookup_lt_Some in Him.
now destruct (decide (img < length h)%nat).
Qed.

(** The loop of line 38 on the store: only the image drawn on changes. *)
Lemma for_each_draw_run r ps (h : list Mut.object) img im :
  h !! img = Some (Mut.PilImage im) →
  Mut.for_each ps (λ '(x, y), Mut.draw_ellipse img (x - r, y - r, x + r, y + r) red) h =
  Some (tt,
        <[img := Mut.PilImage
             (fold_left (λ im '(x, y), ellipse im (x - r, y - r, x + r, y + r) red) ps im)]> h).
Proof.
revert h im. induction ps as [|[x y] ps IH]; intros h im Him; cbn [Mut.for_each fold_left].
- unfold Mut.ret. now rewrite list_insert_id.
- unfold Mut.bind. rewrite (draw_ellipse_run h img im) by exact Him.
  rewrite (IH _ (ellipse im (x - r, y - r, x + r, y + r) red)).
  + now rewrite list_insert_insert_eq.
  + apply list_lookup_insert_eq. now apply lookup_lt_Some in Him.
Qed.

Lemma get_image_with_dots_run (h : list Mut.object) base_image dots b ds current_dot dot_size :
  h !! base_image = Some (Mut.PilImage b) →
  h !! dots = Some (Mut.PyList ds) →
  Mut.get_image_with_dots base_image dots current_dot dot_size h =
  Some (length h, h ++ [Mut.PilImage (get_image_with_dots b ds current_dot dot_size)]).
Proof.
intros Hb Hds.
assert (Hfresh : ∀ o, (h ++ [o]) !! length h = Some o).
{ intros o. rewrite lookup_app_r by lia. now rewrite Nat.sub_diag. }
assert (Hput : ∀ o o', <[length h := o']> (h ++ [o]) = h ++ [o']).
{ intros o o'. rewrite insert_app_r_alt by lia. now rewrite Nat.sub_diag. }
unfold Mut.get_image_with_dots, Mut.image_copy, Mut.items_of, Mut.bind at 1 2 3.
unfold Mut.deref at 1. rewrite Hb. unfold Mut.new.
unfold Mut.bind at 1. unfold Mut.bind at 1. unfold Mut.deref.
rewrite (lookup_app_l_Some _ _ _ _ Hds). unfold Mut.ret at 1.
unfold Mut.bind at 1.
rewrite (for_each_draw_run (dot_size / 2) ds (h ++ [Mut.PilImage b]) (length h) b)
  by apply Hfresh.
rewrite Hput. unfold Mut.bind, Mut.ret, get_image_with_dots.
destruct current_dot as [[cx cy]|]; [|reflexivity].
rewrite (draw_ellipse_run _ (length h) _ _ _ (Hfresh _)).
now rewrite Hput.
Qed.

(** C8.  Called on a store that holds the base image and the list of dots,
    [get_image_with_dots] returns a new image and changes nothing that was
    there: the base image and the list it was given are as before, the
    preview dot is drawn (blue at its own position, for a dot size of at
    least two, the least the slider gives) and not added to the
    list, and the picture returned is a function of the base image, the
    dots, the preview dot and the dot size alone, the same in every store
    that holds them. *)
Theorem get_image_with_dots_pure (h h2 : list Mut.object) base_image dots base2 dots2
    b ds current_dot dot_size :
  h !! base_image = Some (Mut.PilImage b) →
  h !! dots = Some (Mut.PyList ds) →
  h2 !! base2 = Some (Mut.PilImage b) →
  h2 !! dots2 = Some (Mut.PyList ds) →
  ∃ out h',
    Mut.get_image_with_dots base_image dots current_dot dot_size h = Some (length h, h')
    ∧ h !! length h = None
    ∧ h' !! length h = Some (Mut.PilImage out)
    ∧ out = get_image_with_dots b ds current_dot dot_size
    ∧ h' !! base_image = Some (Mut.PilImage b)
    ∧ h' !! dots = Some (Mut.PyList ds)
    ∧ (∀ l o, h !! l = Some o → h' !! l = Some o)
    ∧ length h' = S (length h)
    ∧ (∀ cx cy, current_dot = Some (cx, cy) → 2 ≤ dot_size →
         is_Some (getpixel b cx cy) → getpixel out cx cy = Some blue)
    ∧ ∃ h2',
        Mut.get_image_with_dots base2 dots2 current_dot dot_size h2 = Some (length h2, h2')
        ∧ h2' !! length h2 = Some (Mut.PilImage out).
Proof.
intros Hb Hds Hb2 Hds2.
exists (get_image_with_dots b ds current_dot dot_size),
       (h ++ [Mut.PilImage (get_image_with_dots b ds current_dot dot_size)]).
assert (Hfresh : ∀ (g : list Mut.object) o, (g ++ [o]) !! length g = Some o).
{ intros g o. rewrite lookup_app_r by lia. now rewrite Nat.sub_diag. }
split; [now apply get_image_with_dots_run|].
split; [now apply lookup_ge_None_2|].
split; [apply Hfresh|]. split; [reflexivity|].
split; [now apply lookup_app_l_Some|].
split; [now apply lookup_app_l_Some|].
split; [intros l o Hl; now apply lookup_app_l_Some|].
split; [rewrite length_app; cbn; lia|].
split.
- intros cx cy -> Hsize [c Hc].
  rewrite getpixel_get_image_with_dots, Hc. cbn.
  rewrite inside_centre; [reflexivity|]. apply Z.div_le_lower_bound; lia.
- exists (h2 ++ [Mut.PilImage (get_image_with_dots b ds current_dot dot_size)]).
  split; [now apply get_image_with_dots_run | apply Hfresh].
Qed.

End Purity.

(** ** The picture as a whole

    The renderer changes pixels in place and nothing else, so the picture it
    returns is the base image with one function applied to every pixel. *)

(** [map_pixels f img]: the image whose pixel at [(x, y)] is [f x y] of the
    pixel of [img] there. *)
Definition map_pixels (f : Z → Z → rgba → rgba) (img : list (list rgba)) : list (list rgba) :=
  imap (λ j row, imap (λ i c, f (Z.of_nat i) (Z.of_nat j) c) row) img.

(** The colour a pixel of the base image ends up with. *)
Definition paint `{EllipseFill} (dots : list (Z * Z)) (current_dot : option (Z * Z))
    (dot_size : Z) (px py : Z) (c : rgba) : rgba :=
  let r := dot_size / 2 in
  match current_dot with
  | Some (cx, cy) =>
      if inside (cx - r, cy - r, cx + r, cy + r) px py then blue
      else if covered r dots px py then red else c
  | None => if covered r dots px py then red else c
  end.

Lemma map_pixels_compose f g img :
  map_pixels f (map_pixels g img) = map_pixels (λ x y c, f x y (g x y c)) img.
Proof.
unfold map_pixels. apply list_eq. intros j.
rewrite !list_lookup_imap. destruct (img !! j) as [row|]; [|reflexivity].
cbn [fmap option_fmap option_map]. f_equal.
apply list_eq. intros i. rewrite !list_lookup_imap.
now destruct (row !! i).
Qed.

Lemma map_pixels_ext f g img :
  (∀ x y c, getpixel img x y = Some c → f x y c = g x y c) →
  map_pixels f img = map_pixels g img.
Proof.
intros Hfg. unfold map_pixels. apply imap_ext. intros j row Hrow.
apply imap_ext. intros i c Hc. apply Hfg.
unfold getpixel.
replace (0 <=? Z.of_nat i) with true by (symmetry; apply Z.leb_le; lia).
replace (0 <=? Z.of_nat j) with true by (symmetry; apply Z.leb_le; lia).
cbn [andb]. rewrite !Nat2Z.id, Hrow. exact Hc.
Qed.

Lemma map_pixels_id img : map_pixels (λ _ _ c, c) img = img.
Proof.
unfold map_pixels. apply list_eq. intros j. rewrite list_lookup_imap.
destruct (img !! j) as [row|]; [|reflexivity].
cbn [fmap option_fmap option_map]. f_equal.
apply list_eq. intros i. rewrite list_lookup_imap. now destruct (row !! i).
Qed.

Section Picture.
Context `{EllipseFill}.

Lemma red_dots_map_pixels r dots img :
  fold_left (λ im '(x, y), ellipse im (x - r, y - r, x + r, y + r) red) dots img =
  map_pixels (λ px py c, if covered r dots px py then red else c) img.
Proof.
revert img. induction dots as [|[x y] dots IH]; intros img; cbn [fold_left].
- symmetry. apply map_pixels_id.
- rewrite IH.
  change (ellipse img (x - r, y - r, x + r, y + r) red)
    with (map_pixels (λ px py c,
            if inside (x - r, y - r, x + r, y + r) px py then red else c) img).
  rewrite map_pixels_compose. apply map_pixels_ext. intros px py c _.
  cbn [covered existsb]. fold (covered r dots px py).
  now destruct (inside _ px py), (covered r dots px py).
Qed.

(** The picture returned is the base image repainted pixel by pixel. *)
Lemma get_image_with_dots_map_pixels base dots current_dot dot_size :
  get_image_with_dots base dots current_dot dot_size =
  map_pixels (paint dots current_dot dot_size) base.
Proof.
unfold get_image_with_dots. rewrite red_dots_map_pixels.
destruct current_dot as [[cx cy]|]; [|reflexivity].
change (ellipse ?im ?xy blue)
  with (map_pixels (λ px py c, if inside xy px py then blue else c) im).
rewrite map_pixels_compose. reflexivity.
Qed.

Lemma covered_same_dots r dots dots' px py :
  (∀ p, p ∈ dots ↔ p ∈ dots') → covered r dots px py = covered r dots' px py.
Proof.
intros Hsame. apply eq_true_iff_eq. rewrite !covered_true.
split; intros (x & y & Hin & Hc); exists x, y; (split; [now apply Hsame | exact Hc]).
Qed.

(** X1. The picture depends on which dots are pending, not on the order
    they were added in nor on how often the same dot was added: two lists
    with the same members give the same picture, with or without a preview
    dot. *)
Theorem render_same_dots base dots dots' current_dot dot_size :
  (∀ p, p ∈ dots ↔ p ∈ dots') →
  get_image_with_dots base dots current_dot dot_size =
  get_image_with_dots base dots' current_dot dot_size.
Proof.
intros Hsame. rewrite !get_image_with_dots_map_pixels.
apply map_pixels_ext. intros px py c _. unfold paint.
now rewrite (covered_same_dots _ dots dots' px py Hsame).
Qed.

(** X2. Drawing is clipped to the image: when the square of every pending
    dot misses every pixel of the base image, the picture without preview
    dot is the base image itself; in particular with no pending dot. *)
Theorem render_off_image base dots dot_size :
  (∀ x y px py, (x, y) ∈ dots → is_Some (getpixel base px py) →
     ¬ (x - dot_size / 2 ≤ px ≤ x + dot_size / 2
        ∧ y - dot_size / 2 ≤ py ≤ y + dot_size / 2)) →
  get_image_with_dots base dots None dot_size = base.
Proof.
intros Hoff. rewrite get_image_with_dots_map_pixels.
rewrite <- (map_pixels_id base) at 2.
apply map_pixels_ext. intros px py c Hc. unfold paint.
replace (covered (dot_size / 2) dots px py) with false; [reflexivity|].
symmetry. apply not_true_is_false. intros Hcov.
apply covered_true in Hcov as (x & y & Hin & Hins).
apply inside_box in Hins. apply (Hoff x y px py Hin); [now exists c | exact Hins].
Qed.

(** X3. The preview dot is drawn last, on top of the pending dots: every
    pixel of the image that its ellipse fills is blue, whatever was pending
    there, its own position included for a dot size of at least two, and
    every other pixel is as in the picture without preview dot. *)
Theorem render_preview_on_top base dots cx cy dot_size px py :
  let r := dot_size / 2 in
  let out := get_image_with_dots base dots (Some (cx, cy)) dot_size in
  (inside (cx - r, cy - r, cx + r, cy + r) px py = true →
     getpixel out px py = (λ _, blue) <$> getpixel base px py)
  ∧ (inside (cx - r, cy - r, cx + r, cy + r) px py = false →
     getpixel out px py = getpixel (get_image_with_dots base dots None dot_size) px py)
  ∧ (2 ≤ dot_size → getpixel out cx cy = (λ _, blue) <$> getpixel base cx cy).
Proof.
cbn zeta. rewrite !getpixel_get_image_with_dots. cbn zeta.
split; [|split].
- intros ->. now destruct (getpixel base px py).
- intros ->. reflexivity.
- intros Hsize. rewrite inside_centre by (apply Z.div_le_lower_bound; lia).
  now destruct (getpixel base cx cy).
Qed.

End Picture.

(** ** Handlers one after the other *)

(** Add Dot clicked once for each point of [ps], in order. *)
Definition add_dots (ps : list (Z * Z)) (st : session_state) : session_state :=
  fold_left (λ s '(x, y), state_of (add_dot x y s [])) ps st.

(** Undo Last Dot clicked [n] times. *)
Definition undo_times (n : nat) (st : session_state) : session_state :=
  Nat.iter n (λ s, state_of (undo_last_dot s [])) st.

Lemma add_dots_state ps st :
  add_dots ps st = {| dots := dots st ++ ps; entries := entries st |}.
Proof.
revert st. induction ps as [|[x y] ps IH]; intros st; cbn [add_dots fold_left].
- rewrite app_nil_r. now destruct st.
- fold (add_dots ps). rewrite IH. unfold add_dot, st_rerun. run.
  cbn [state_of fst snd dots entries]. now rewrite <- app_assoc.
Qed.

Lemma removelast_take {A} (l : list A) m :
  (m ≤ length l)%nat → removelast (take m l) = take (pred m) l.
Proof.
intros Hm. destruct m as [|m]; [reflexivity|].
apply removelast_firstn. lia.
Qed.

Lemma undo_times_state n st :
  undo_times n st =
  {| dots := take (length (dots st) - n) (dots st); entries := entries st |}.
Proof.
induction n as [|n IH].
- unfold undo_times. cbn [Nat.iter]. rewrite Nat.sub_0_r, firstn_all. now destruct st.
- change (undo_times (S n) st) with (state_of (undo_last_dot (undo_times n st) [])).
  rewrite IH, undo_last_dot_state.
  cbn [state_of fst snd dots entries].
  rewrite removelast_take by lia. do 2 f_equal. lia.
Qed.

(** X4. Undo takes back additions one by one from the end: after adding any
    points and clicking undo [n] times, with [n] at most their number, the
    pending dots are the old ones followed by all but the last [n] of the
    new; with [n] their number the session state is the one from before. *)
Theorem undo_times_after_add_dots ps st :
  undo_times (length ps) (add_dots ps st) = st
  ∧ ∀ n, (n ≤ length ps)%nat →
      undo_times n (add_dots ps st) =
      {| dots := dots st ++ take (length ps - n) ps; entries := entries st |}.
Proof.
assert (Hn : ∀ n, (n ≤ length ps)%nat →
      undo_times n (add_dots ps st) =
      {| dots := dots st ++ take (length ps - n) ps; entries := entries st |}).
{ intros n Hle. rewrite undo_times_state, add_dots_state. cbn [dots entries].
  rewrite length_app, take_app_ge by lia. do 3 f_equal. lia. }
split; [|exact Hn].
rewrite Hn by lia. rewrite Nat.sub_diag. cbn [take]. rewrite app_nil_r.
now destruct st.
Qed.

(** X5. Clicking undo as often as there are pending dots, or more often,
    does what Clear All Dots does: no pending dot is left and the entries
    are untouched. *)
Theorem undo_times_clears k st page :
  undo_times (length (dots st) + k) st = state_of (clear_all_dots st page).
Proof.
rewrite undo_times_state.
replace (length (dots st) - (length (dots st) + k))%nat with 0%nat by lia.
reflexivity.
Qed.

Section SaveTwice.
Context `{EllipseFill, PngEncoder}.

(** X6. A second Save Entry right after a successful one is rejected
    whatever the label: the pending dots were used up, so the warning is
    shown and the entry is not saved twice. *)
Theorem save_entry_twice base base_image' label label' dot_size dot_size' now now'
    st page page' :
  label ≠ ""%string →
  dots st ≠ [] →
  let st1 := state_of (save_entry (Some base) label dot_size now st page) in
  length (entries st1) = S (length (entries st))
  ∧ save_entry base_image' label' dot_size' now' st1 page' =
    (inl tt, st1, page' ++ [st_warning "Please add at least one dot and a label."]).
Proof.
intros Hlabel Hdots st1.
assert (Hst1 : st1 =
  {| dots := [];
     entries := entries st ++
       [(now, label, save_png (get_image_with_dots base (dots st) None dot_size),
         dot_size)] |}).
{ subst st1. unfold save_entry. run.
  apply truthy_true in Hlabel. apply nonempty_true in Hdots.
  rewrite Hlabel, Hdots. reflexivity. }
rewrite Hst1. split.
- cbn [entries]. rewrite length_app. cbn. lia.
- unfold save_entry. run. cbn [dots nonempty]. now rewrite andb_false_r.
Qed.

End SaveTwice.

(** ** How a run ends, and runs without a base image *)

Section Endings.
Context `{EllipseFill, PngEncoder}.

(** X7. With the base image loaded, a run raises exactly when the image is
    one pixel wide or one pixel high, where a slider refuses its range from
    0 to 0; otherwise it is cut short by [st.rerun()] exactly when Add Dot
    was clicked or the delete button of an entry that exists, and every
    other run, with any other button or none, goes through to the end of the
    script. *)
Theorem script_ending listdir b notices label dot_size x y now clicked st page :
  load_body_image listdir = (Some b, notices) →
  ending_of (script listdir label dot_size x y now clicked st page) =
  if (width b =? 1) || (height b =? 1) then inr (Raise StreamlitAPIException)
  else match clicked with
       | Some AddDot => inr Rerun
       | Some (Delete i) =>
           if decide (i < length (entries st))%nat then inr Rerun else inl tt
       | _ => inl tt
       end.
Proof.
intros Hload.
destruct (script_run listdir b notices label dot_size x y now clicked st page Hload)
  as [page' ->].
reflexivity.
Qed.

(** X8. Without a base image, the loader having returned nothing, a run
    stops on [AttributeError] and can only have taken pending dots away
    before: Undo Last Dot and Clear All Dots still work, no dot and no entry
    is ever added, no entry is deleted, and the loader's notices are on the
    page. *)
Theorem script_without_image_state listdir notices label dot_size x y now clicked st page :
  load_body_image listdir = (None, notices) →
  let r := script listdir label dot_size x y now clicked st page in
  ending_of r = inr (Raise AttributeError)
  ∧ entries (state_of r) = entries st
  ∧ dots (state_of r) =
      match clicked with
      | Some UndoLastDot => removelast (dots st)
      | Some ClearAllDots => []
      | _ => dots st
      end
  ∧ ∃ more, page_of r = page ++ notices ++ more.
Proof.
intros Hload r. subst r. unfold script. rewrite Hload.
rewrite run_bind, for_each_emit.
destruct clicked as [[| | | |i|]|]; press; run; cbn [the_image]; run.
- unfold save_entry. run.
  destruct (truthy label && nonempty (dots st)); run; cbn [the_image]; run.
  + repeat split. exists []. cbn. now rewrite !app_nil_r.
  + repeat split. eexists. cbn. rewrite <- app_assoc. reflexivity.
- rewrite undo_last_dot_state. run.
  repeat split. exists []. cbn. now rewrite !app_nil_r.
- unfold clear_all_dots. run.
  repeat split. exists []. cbn. now rewrite !app_nil_r.
- repeat split. exists []. cbn. now rewrite !app_nil_r.
- repeat split. exists []. cbn. now rewrite !app_nil_r.
- repeat split. exists []. cbn. now rewrite !app_nil_r.
- repeat split. exists []. cbn. now rewrite !app_nil_r.
Qed.

End Endings.

(** ** What a saved picture is *)

(** The runs of a session, latest first: each with its working directory,
    label, dot size, clock reading and click, and the session state it
    started from. *)
Inductive trace `{EllipseFill, PngEncoder} :
    list (directory * string * Z * string * option button * session_state) →
    session_state → Prop :=
  | trace_initial : trace [] initial_state
  | trace_run log st listdir label dot_size x y now clicked page :
      trace log st →
      trace ((listdir, label, dot_size, now, clicked, st) :: log)
            (state_of (script listdir label dot_size x y now clicked st page)).

Section Pictures.
Context `{EllipseFill, PngEncoder}.

Lemma script_without_image_entries listdir notices label dot_size x y now clicked st page :
  load_body_image listdir = (None, notices) →
  entries (state_of (script listdir label dot_size x y now clicked st page)) = entries st.
Proof.
intros Hload. unfold script. rewrite Hload.
rewrite run_bind, for_each_emit.
destruct clicked as [[| | | |i|]|]; press; run; cbn [the_image]; run.
- unfold save_entry. run.
  destruct (truthy label && nonempty (dots st)); run; cbn [the_image]; run; reflexivity.
- rewrite undo_last_dot_state. run. reflexivity.
- unfold clear_all_dots. run. reflexivity.
- reflexivity.
- reflexivity.
- reflexivity.
- reflexivity.
Qed.

(** The entries after a run are entries from before the run or the one
    entry a Save Entry click made of the run's own image and pending dots. *)
Lemma script_entries listdir label dot_size x y now clicked st page e :
  e ∈ entries (state_of (script listdir label dot_size x y now clicked st page)) →
  e ∈ entries st
  ∨ (clicked = Some SaveEntry
     ∧ ∃ b notices,
         load_body_image listdir = (Some b, notices)
         ∧ dots st ≠ []
         ∧ e = (now, label, save_png (get_image_with_dots b (dots st) None dot_size),
                dot_size)).
Proof.
destruct (load_body_image listdir) as [[b|] notices] eqn:Hload.
2:{ rewrite (script_without_image_entries listdir notices) by exact Hload. now left. }
destruct (script_run listdir b notices label dot_size x y now clicked st page Hload)
  as [page' ->].
unfold state_of. cbn [fst snd]. unfold effect.
destruct clicked as [[| | | |i|]|];
  destruct (sliders_refused b); cbn [sidebar_only entries]; auto;
  try (destruct (decide (i < length (entries st))%nat); cbn [entries]; auto;
       intros He; left; now apply list_elem_of_delete_inv in He).
all: destruct (truthy label && nonempty (dots st)) eqn:Hguard; cbn [entries]; auto.
all: apply andb_true_iff in Hguard as [_ Hdots]; apply nonempty_true in Hdots.
all: rewrite elem_of_app, list_elem_of_singleton; intros [He | ->]; [now left|].
all: right; split; [reflexivity|]; exists b, notices; auto.
Qed.

(** X9. Every entry of a session was saved by one of its runs: a run
    started by Save Entry, in which the loader returned an image and dots
    were pending, and the entry's picture is the encoding of that image with
    those dots drawn at that run's dot size and without preview dot, under
    that run's label and clock reading. *)
Theorem trace_entries_rendered log st :
  trace log st →
  Forall (λ e : entry,
            ∃ listdir label dot_size now before b notices,
              (listdir, label, dot_size, now, Some SaveEntry, before) ∈ log
              ∧ load_body_image listdir = (Some b, notices)
              ∧ dots before ≠ []
              ∧ e = (now, label,
                     save_png (get_image_with_dots b (dots before) None dot_size),
                     dot_size))
         (entries st).
Proof.
induction 1 as [|log st listdir label dot_size x y now clicked page _ IH].
- constructor.
- apply Forall_forall. intros e He.
  apply script_entries in He as [He | (-> & b & notices & Hload & Hdots & ->)].
  + rewrite Forall_forall in IH.
    destruct (IH e He) as (ld & lb & sz & nw & bf & b & ns & Hin & Hrest).
    exists ld, lb, sz, nw, bf, b, ns. split; [now right | exact Hrest].
  + exists listdir, label, dot_size, now, st, b, notices.
    split; [left|]. auto.
Qed.

End Pictures.

(** ** Which file the loader takes *)

Lemma candidates_app l1 l2 : candidates (l1 ++ l2) = candidates l1 ++ candidates l2.
Proof. unfold candidates. now rewrite !List.filter_app. Qed.

Lemma candidates_none l :
  (∀ f, f ∈ l → is_image_file f.1 && is_body_image f.1 = false) → candidates l = [].
Proof.
induction l as [|f l IH]; intros Hl; [reflexivity|].
assert (Hf := Hl f (list_elem_of_here f l)).
assert (Hrest : candidates l = []) by (apply IH; intros g Hg; apply Hl; now right).
unfold candidates in *. cbn [List.filter].
destruct (is_image_file f.1) eqn:Himg; cbn [List.filter]; [|exact Hrest].
cbn [andb] in Hf. rewrite Hf. exact Hrest.
Qed.

Lemma candidates_cons f l :
  is_image_file f.1 = true → is_body_image f.1 = true →
  candidates (f :: l) = f :: candidates l.
Proof.
intros H1 H2. unfold candidates. cbn [List.filter]. rewrite H1.
cbn [List.filter]. now rewrite H2.
Qed.

(** X10. The loader takes the first file of the directory listing whose
    name, in lower case, ends in [.jpg], [.jpeg] or [.png] and contains
    [human] or [body]; files before it that fail the test do not matter, and
    files after it are never looked at: when the first one decodes it is the
    base image and nothing is reported, and when it does not, the error is
    reported and no image is returned even if a later file would decode. *)
Theorem load_body_image_first_candidate before name decoded after :
  (∀ f, f ∈ before → is_image_file f.1 && is_body_image f.1 = false) →
  is_image_file name = true →
  is_body_image name = true →
  load_body_image (before ++ (name, decoded) :: after) =
  match decoded with
  | inl img => (Some img, [])
  | inr e => (None, [st_error ("Error loading image '" ++ name ++ "': " ++ e)])
  end.
Proof.
intros Hbefore Himg Hbody.
assert (Hc : candidates (before ++ (name, decoded) :: after)
             = (name, decoded) :: candidates after).
{ rewrite candidates_app, (candidates_none before Hbefore).
  now apply candidates_cons. }
destruct decoded as [img|e].
- now apply load_body_image_decoded with (name := name) (rest := candidates after).
- now apply load_body_image_undecodable with (rest := candidates after).
Qed.

(** X11. When no file of the directory passes the test, whatever else the
    directory holds, the loader shows the warning and returns a canvas 500
    wide and 800 high, white at every pixel. *)
Theorem load_body_image_no_candidate listdir :
  (∀ f, f ∈ listdir → is_image_file f.1 && is_body_image f.1 = false) →
  ∃ img,
    load_body_image listdir =
      (Some img, [st_warning "No body outline image found. Using a blank placeholder."])
    ∧ width img = 500 ∧ height img = 800
    ∧ ∀ x y, getpixel img x y =
        if (0 <=? x) && (x <? 500) && (0 <=? y) && (y <? 800) then Some white else None.
Proof.
intros Hnone.
destruct (load_body_image_missing listdir (candidates_none listdir Hnone))
  as (img & Hload & Hw & Hh & Hwhite).
exists img. split; [exact Hload|]. split; [exact Hw|]. split; [exact Hh|].
intros x y.
assert (Himg : img = new_image 500 800 white).
{ unfold load_body_image in Hload. fold (candidates listdir) in Hload.
  rewrite (candidates_none listdir Hnone) in Hload. now injection Hload as <-. }
destruct (0 <=? x) eqn:Hx0; cbn [andb].
2:{ unfold getpixel. now rewrite Hx0. }
destruct (x <? 500) eqn:Hx1; cbn [andb].
2:{ apply Z.ltb_ge in Hx1. unfold getpixel. rewrite Hx0.
    destruct (0 <=? y); [|reflexivity]. cbn [andb].
    destruct (img !! Z.to_nat y) as [row|] eqn:Hrow; [|reflexivity].
    cbn [mbind option_bind]. apply lookup_ge_None_2.
    subst img. unfold new_image in Hrow.
    apply lookup_replicate in Hrow as [-> _].
    rewrite length_replicate. lia. }
destruct (0 <=? y) eqn:Hy0; cbn [andb].
2:{ unfold getpixel. rewrite Hx0, Hy0. reflexivity. }
destruct (y <? 800) eqn:Hy1.
- apply Hwhite; apply Z.leb_le in Hx0, Hy0; apply Z.ltb_lt in Hx1, Hy1; lia.
- apply Z.ltb_ge in Hy1. unfold getpixel. rewrite Hx0, Hy0. cbn [andb].
  replace (img !! Z.to_nat y) with (@None (list rgba)); [reflexivity|].
  symmetry. apply lookup_ge_None_2. subst img. unfold new_image.
  rewrite length_replicate. lia.
Qed.

(** ** Two calls of the renderer *)

Section TwoCalls.
Context `{EllipseFill}.

(** X12. Two calls of the renderer on the same store, as a run makes them
    for the saved picture and for the preview, return two different
    objects; the second call leaves the picture of the first as it was, and
    leaves the base image and the list of dots as they were. *)
Theorem get_image_with_dots_twice (h : list Mut.object) base_image dots b ds
    current_dot dot_size current_dot' dot_size' :
  h !! base_image = Some (Mut.PilImage b) →
  h !! dots = Some (Mut.PyList ds) →
  ∃ h1 h2,
    Mut.get_image_with_dots base_image dots current_dot dot_size h = Some (length h, h1)
    ∧ Mut.get_image_with_dots base_image dots current_dot' dot_size' h1
      = Some (S (length h), h2)
    ∧ h2 !! length h = Some (Mut.PilImage (get_image_with_dots b ds current_dot dot_size))
    ∧ h2 !! S (length h)
      = Some (Mut.PilImage (get_image_with_dots b ds current_dot' dot_size'))
    ∧ h2 !! base_image = Some (Mut.PilImage b)
    ∧ h2 !! dots = Some (Mut.PyList ds).
Proof.
intros Hb Hds.
set (out1 := get_image_with_dots b ds current_dot dot_size).
set (out2 := get_image_with_dots b ds current_dot' dot_size').
exists (h ++ [Mut.PilImage out1]), ((h ++ [Mut.PilImage out1]) ++ [Mut.PilImage out2]).
assert (Hb1 : (h ++ [Mut.PilImage out1]) !! base_image = Some (Mut.PilImage b))
  by now apply lookup_app_l_Some.
assert (Hds1 : (h ++ [Mut.PilImage out1]) !! dots = Some (Mut.PyList ds))
  by now apply lookup_app_l_Some.
assert (Hlen : length (h ++ [Mut.PilImage out1]) = S (length h))
  by (rewrite length_app; cbn; lia).
split; [now apply get_image_with_dots_run|].
split.
{ rewrite (get_image_with_dots_run _ base_image dots b ds current_dot' dot_size' Hb1 Hds1).
  now rewrite Hlen. }
split.
{ apply lookup_app_l_Some. rewrite lookup_app_r by lia. now rewrite Nat.sub_diag. }
split.
{ rewrite lookup_app_r by lia. now rewrite Hlen, Nat.sub_diag. }
split; now apply lookup_app_l_Some.
Qed.

End TwoCalls.

(** ** The position sliders (lines 89-90) *)

Lemma half_in_range n : 0 < n → 0 ≤ n / 2 ≤ n - 1.
Proof.
intros Hn. split; [apply Z.div_pos; lia|].
assert (n / 2 < n) by (apply Z.div_lt; lia). lia.
Qed.

(** X19. For every base image each slider starts inside its own range,
    from 0 to the last column or row (or to 499 and 799 for an image without
    pixels); and when the image has pixels, all rows being as long as the
    first, the starting position of the preview dot is a pixel of the
    image. *)
Theorem sliders_start_inside base_image :
  (∀ row, row ∈ base_image → Z.of_nat (length row) = width base_image) →
  let '(x_min, x_max, x0) := x_slider base_image in
  let '(y_min, y_max, y0) := y_slider base_image in
  x_min = 0 ∧ y_min = 0
  ∧ x_min ≤ x0 ≤ x_max ∧ y_min ≤ y0 ≤ y_max
  ∧ (0 < width base_image → is_Some (getpixel base_image x0 y0)).
Proof.
intros Hrect. unfold x_slider, y_slider.
pose proof (width_nonneg base_image) as Hw.
assert (Hh : 0 ≤ height base_image) by (unfold height; lia).
split; [reflexivity|]. split; [reflexivity|].
split; [|split].
- destruct (0 <? width base_image) eqn:E; [|lia].
  apply Z.ltb_lt in E. now apply half_in_range.
- destruct (0 <? height base_image) eqn:E; [|lia].
  apply Z.ltb_lt in E. now apply half_in_range.
- intros Hpos.
  assert (Hhpos : 0 < height base_image).
  { destruct base_image; [cbn in Hpos; lia | unfold height; cbn; lia]. }
  rewrite (proj2 (Z.ltb_lt _ _) Hpos), (proj2 (Z.ltb_lt _ _) Hhpos).
  pose proof (half_in_range _ Hpos) as Hx.
  pose proof (half_in_range _ Hhpos) as Hy.
  unfold getpixel.
  rewrite (proj2 (Z.leb_le _ _) (proj1 Hx)), (proj2 (Z.leb_le _ _) (proj1 Hy)).
  cbn [andb].
  destruct (lookup_lt_is_Some_2 base_image (Z.to_nat (height base_image / 2)))
    as [row Hrow].
  { unfold height in *. lia. }
  rewrite Hrow. cbn [mbind option_bind].
  apply lookup_lt_is_Some_2.
  assert (Hlen : Z.of_nat (length row) = width base_image).
  { apply Hrect. apply list_elem_of_lookup. eauto. }
  lia.
Qed.

(** ** The CSV export *)

Local Open Scope string_scope.

Lemma string_app_assoc (s1 s2 s3 : string) : (s1 ++ s2) ++ s3 = s1 ++ (s2 ++ s3).
Proof. induction s1 as [|c s1 IH]; cbn; [reflexivity | now rewrite IH]. Qed.

Lemma string_app_nil_r (s : string) : s ++ "" = s.
Proof. induction s as [|c s IH]; cbn; [reflexivity | now rewrite IH]. Qed.

Lemma writerow_loop (es : list entry) buf :
  fold_left (λ buf '(date, label, _, size), writerow buf [Str date; Str label; Int size])
            es buf
  = buf ++ csv_text (summary_row <$> es).
Proof.
revert buf. induction es as [|[[[date label] img_bytes] size] es IH]; intros buf.
- cbn. now rewrite string_app_nil_r.
- cbn [fold_left fmap list_fmap csv_text]. rewrite IH. unfold writerow.
  now rewrite !string_app_assoc.
Qed.

(** ** The reader on what the writer wrote *)

Lemma feed_app σ s1 s2 : feed σ (s1 ++ s2) = feed (feed σ s1) s2.
Proof.
revert σ. induction s1 as [|c s1 IH]; intros σ; cbn; [reflexivity | apply IH].
Qed.

Lemma classify_plain c : special c = false → classify c = Other.
Proof.
unfold special, classify.
destruct (Ascii.eqb c ","), (Ascii.eqb c dquote), (Ascii.eqb c cr), (Ascii.eqb c lf);
  cbn; congruence.
Qed.

Lemma classify_no_quote c : Ascii.eqb c dquote = false → classify c ≠ Quote.
Proof.
intros Hc. unfold classify. rewrite Hc.
destruct (Ascii.eqb c ","), (Ascii.eqb c cr), (Ascii.eqb c lf); discriminate.
Qed.

(** A field without special characters is read as it stands. *)
Lemma feed_plain f g F R :
  needs_quotes f = false →
  feed {| state := InField; field := g; fields := F; records := R |} f =
  {| state := InField; field := g ++ f; fields := F; records := R |}.
Proof.
revert g. induction f as [|c f IH]; intros g Hf; cbn [feed].
- now rewrite string_app_nil_r.
- cbn [needs_quotes] in Hf. apply orb_false_iff in Hf as [Hc Hf].
  unfold step. cbn [state]. rewrite (classify_plain c Hc).
  unfold add_char. cbn [field fields records].
  rewrite IH by exact Hf. now rewrite string_app_assoc.
Qed.

(** Between quotes, doubled quotes are read as one and the rest as it
    stands. *)
Lemma feed_quoted f g F R :
  feed {| state := InQuotedField; field := g; fields := F; records := R |}
       (double_quotes f) =
  {| state := InQuotedField; field := g ++ f; fields := F; records := R |}.
Proof.
revert g. induction f as [|c f IH]; intros g; cbn [feed double_quotes].
- now rewrite string_app_nil_r.
- destruct (Ascii.eqb c dquote) eqn:Hc.
  + apply Ascii.eqb_eq in Hc. subst c. cbn [feed].
    change (step {| state := InQuotedField; field := g; fields := F; records := R |} dquote)
      with {| state := QuoteInQuotedField; field := g; fields := F; records := R |}.
    change (step {| state := QuoteInQuotedField; field := g; fields := F; records := R |} dquote)
      with {| state := InQuotedField; field := g ++ String dquote ""; fields := F;
              records := R |}.
    rewrite IH. now rewrite string_app_assoc.
  + cbn [feed]. unfold step at 1. cbn [state].
    pose proof (classify_no_quote c Hc) as Hk.
    replace (match classify c with
             | Quote => enter QuoteInQuotedField _
             | _ => add_char c InQuotedField _
             end)
      with {| state := InQuotedField; field := g ++ String c ""; fields := F; records := R |}
      by (destruct (classify c); [reflexivity | congruence | reflexivity..]).
    rewrite IH. now rewrite string_app_assoc.
Qed.

Lemma feed_field m f F R :
  m = StartRecord ∨ m = StartField →
  feed {| state := m; field := ""; fields := F; records := R |} (csv_field f) =
  {| state := held m f; field := f; fields := F; records := R |}.
Proof.
intros Hm. unfold csv_field, held. destruct (needs_quotes f) eqn:Hq.
- cbn [feed].
  replace (step {| state := m; field := ""; fields := F; records := R |} dquote)
    with {| state := InQuotedField; field := ""; fields := F; records := R |}
    by (destruct Hm as [-> | ->]; reflexivity).
  rewrite feed_app, feed_quoted. reflexivity.
- destruct f as [|c f]; [reflexivity|].
  cbn [needs_quotes] in Hq. apply orb_false_iff in Hq as [Hc Hq].
  cbn [feed].
  replace (step {| state := m; field := ""; fields := F; records := R |} c)
    with {| state := InField; field := String c ""; fields := F; records := R |}.
  + now rewrite feed_plain by exact Hq.
  + destruct Hm as [-> | ->]; unfold step, start_record, start_field; cbn [state];
      now rewrite (classify_plain c Hc).
Qed.

Lemma step_comma m f F R :
  m = StartRecord ∨ m = StartField →
  step {| state := held m f; field := f; fields := F; records := R |} "," =
  {| state := StartField; field := ""; fields := (F ++ [f])%list; records := R |}.
Proof.
intros Hm. unfold held.
destruct (needs_quotes f); [reflexivity|].
destruct f; [|reflexivity].
destruct Hm as [-> | ->]; reflexivity.
Qed.

Lemma feed_crlf m f F R :
  held m f ≠ StartRecord →
  m = StartRecord ∨ m = StartField →
  feed {| state := held m f; field := f; fields := F; records := R |}
       (String cr (String lf "")) =
  {| state := StartRecord; field := ""; fields := []; records := (R ++ [F ++ [f]])%list |}.
Proof.
intros Hheld Hm. unfold held in *.
destruct (needs_quotes f); [reflexivity|].
destruct f; [|reflexivity].
destruct Hm as [-> | ->]; [congruence | reflexivity].
Qed.

Lemma concat_cons2 sep (a b : string) l :
  String.concat sep (a :: b :: l) = a ++ sep ++ String.concat sep (b :: l).
Proof. reflexivity. Qed.

Lemma csv_field_empty f : csv_field f = "" → f = "".
Proof. unfold csv_field. now destruct (needs_quotes f). Qed.

Lemma string_app_comma_nonempty (a b : string) : a ++ "," ++ b ≠ "".
Proof. now destruct a. Qed.

(** A written row of at least one field, followed by the line break, adds
    exactly its fields as one record. *)
Lemma feed_fields fs f F R m :
  m = StartField ∨ (m = StartRecord ∧ String.concat "," (csv_field <$> f :: fs) ≠ "") →
  feed {| state := m; field := ""; fields := F; records := R |}
       (String.concat "," (csv_field <$> f :: fs) ++ String cr (String lf "")) =
  {| state := StartRecord; field := ""; fields := []; records := (R ++ [F ++ f :: fs])%list |}.
Proof.
revert f F m. induction fs as [|f2 fs IH]; intros f F m Hm.
- cbn [fmap list_fmap String.concat]. rewrite feed_app.
  assert (Hm' : m = StartRecord ∨ m = StartField) by (destruct Hm as [-> | [-> _]]; auto).
  rewrite (feed_field m f F R Hm'). apply feed_crlf; [|exact Hm'].
  destruct Hm as [-> | [-> Hne]].
  + unfold held. destruct (needs_quotes f); [discriminate|]. now destruct f.
  + cbn [fmap list_fmap String.concat] in Hne. unfold held, csv_field in *.
    destruct (needs_quotes f); [discriminate|]. now destruct f.
- change (csv_field <$> f :: f2 :: fs) with (csv_field f :: csv_field f2 :: (csv_field <$> fs)).
  rewrite concat_cons2, !string_app_assoc, feed_app.
  assert (Hm' : m = StartRecord ∨ m = StartField) by (destruct Hm as [-> | [-> _]]; auto).
  rewrite (feed_field m f F R Hm').
  change ("," ++ String.concat "," (csv_field f2 :: (csv_field <$> fs))
              ++ String cr (String lf ""))
    with (String "," (String.concat "," (csv_field <$> f2 :: fs) ++ String cr (String lf ""))).
  cbn [feed]. rewrite (step_comma m f F R Hm').
  rewrite IH by (left; reflexivity).
  now rewrite <- app_assoc.
Qed.

Lemma csv_record_fields (row : list value) :
  map (λ v, csv_field (str v)) row = csv_field <$> row_fields row.
Proof. unfold row_fields. now rewrite <- list_fmap_compose. Qed.

Lemma feed_record row R :
  feed {| state := StartRecord; field := ""; fields := []; records := R |}
       (csv_record row ++ String cr (String lf "")) =
  {| state := StartRecord; field := ""; fields := []; records := (R ++ [row_fields row])%list |}.
Proof.
unfold csv_record. rewrite csv_record_fields.
destruct row as [|v row]; [reflexivity|].
change (row_fields (v :: row)) with (str v :: row_fields row).
cbn [nonempty andb].
destruct (String.eqb _ "") eqn:Hempty.
- apply String.eqb_eq in Hempty.
  destruct (row_fields row) as [|f2 fs] eqn:Hrow.
  + cbn [fmap list_fmap String.concat] in Hempty.
    apply csv_field_empty in Hempty. rewrite Hempty. reflexivity.
  + change (csv_field <$> str v :: f2 :: fs)
      with (csv_field (str v) :: csv_field f2 :: (csv_field <$> fs)) in Hempty.
    rewrite concat_cons2 in Hempty. now apply string_app_comma_nonempty in Hempty.
- apply String.eqb_neq in Hempty.
  rewrite feed_fields by (right; split; [reflexivity | exact Hempty]).
  reflexivity.
Qed.

Lemma feed_rows rows R :
  feed {| state := StartRecord; field := ""; fields := []; records := R |} (csv_text rows) =
  {| state := StartRecord; field := ""; fields := [];
     records := (R ++ (row_fields <$> rows))%list |}.
Proof.
revert R. induction rows as [|row rows IH]; intros R; cbn [csv_text feed fmap list_fmap].
- now rewrite app_nil_r.
- rewrite <- string_app_assoc, feed_app, feed_record, IH.
  now rewrite <- app_assoc.
Qed.

(** Reading back what the writer wrote gives the rows written, field by
    field. *)
Lemma read_csv_text rows : read_csv (csv_text rows) = row_fields <$> rows.
Proof. unfold read_csv. now rewrite feed_rows. Qed.

(** C7. The CSV export offers for download a text that holds exactly the
    header row [Date, Label, Dot Size] followed by one row per entry, in the
    order of the entry list, made of the entry's date, label and dot size
    and nothing else; the session state is not touched. *)
Theorem prepare_csv_rows st page :
  let header := [Str "Date"; Str "Label"; Str "Dot Size"] in
  let text := csv_text (header :: (summary_row <$> entries st)) in
  let line := λ e : entry, [entry_date e; entry_label e; str (Int (entry_size e))] in
  prepare_csv st page =
    (inl tt, st,
     (page ++ [st_download_button (Text text) "body_markers_summary.csv" "text/csv"])%list)
  ∧ read_csv text = ["Date"; "Label"; "Dot Size"] :: (line <$> entries st)
  ∧ length (read_csv text) = S (length (entries st))
  ∧ ∀ i e, entries st !! i = Some e → read_csv text !! S i = Some (line e).
Proof.
cbn zeta.
assert (Hread :
  read_csv (csv_text ([Str "Date"; Str "Label"; Str "Dot Size"]
                        :: (summary_row <$> entries st))) =
  ["Date"; "Label"; "Dot Size"]
    :: ((λ e : entry, [entry_date e; entry_label e; str (Int (entry_size e))])
          <$> entries st)).
{ rewrite read_csv_text. cbn [fmap list_fmap]. f_equal.
  rewrite <- list_fmap_compose. reflexivity. }
split.
- unfold prepare_csv. run. rewrite writerow_loop. unfold writerow.
  cbn [csv_text]. now rewrite !string_app_assoc.
- rewrite Hread. split; [reflexivity|].
  split; [cbn; now rewrite length_fmap|].
  intros i e He.
  change (((λ e : entry, [entry_date e; entry_label e; str (Int (entry_size e))])
             <$> entries st) !! i =
          Some [entry_date e; entry_label e; str (Int (entry_size e))]).
  now rewrite list_lookup_fmap, He.
Qed.

(** ** The page of a run *)

(** [f"{label.replace(' ', '_')}_{date.replace(':', '-')}.png"] *)
Definition download_name (label date : string) : string :=
  replace " " "_" label ++ "_" ++ replace ":" "-" date ++ ".png".





Lemma prepare_csv_run st page :
  prepare_csv st page =
  (inl tt, st,
   (page ++ [st_download_button
               (Text (csv_text ([Str "Date"; Str "Label"; Str "Dot Size"]
                                  :: (summary_row <$> entries st))))
               "body_markers_summary.csv" "text/csv"])%list).
Proof.
unfold prepare_csv. run. rewrite writerow_loop. unfold writerow.
cbn [csv_text]. now rewrite !string_app_assoc.
Qed.


Section Page.
Context `{EllipseFill, PngEncoder}.



End Page.

(** ** The name of a downloaded picture *)

Lemma replace_removes old new s :
  old ≠ new → contains (String old "") (replace old new s) = false.
Proof.
intros Hne. induction s as [|c s IH]; [reflexivity|].
cbn [replace contains]. rewrite IH, orb_false_r.
cbn [String.prefix].
destruct (Ascii.eqb c old) eqn:Hc.
- destruct (ascii_dec old new) as [E|_]; [contradiction | reflexivity].
- apply Ascii.eqb_neq in Hc.
  destruct (ascii_dec old c) as [E|_]; [congruence | reflexivity].
Qed.

Lemma replace_absent old new s :
  contains (String old "") s = false → replace old new s = s.
Proof.
induction s as [|c s IH]; [reflexivity|].
cbn [replace contains String.prefix]. intros Hs.
apply orb_false_iff in Hs as [Hc Hs]. rewrite (IH Hs).
destruct (ascii_dec old c) as [E|Hne].
- subst c. now destruct s.
- replace (Ascii.eqb c old) with false; [reflexivity|].
  symmetry. apply Ascii.eqb_neq. congruence.
Qed.

Lemma replace_length old new s : String.length (replace old new s) = String.length s.
Proof. induction s as [|c s IH]; cbn; congruence. Qed.

Lemma string_length_app (a b : string) :
  String.length (a ++ b) = (String.length a + String.length b)%nat.
Proof. induction a as [|c a IH]; cbn; congruence. Qed.

Lemma substring_app_r (a b : string) :
  substring (String.length a) (String.length b) (a ++ b) = b.
Proof.
induction a as [|c a IH]; cbn [String.length append substring]; [|exact IH].
induction b as [|d b IHb]; [reflexivity|].
cbn [String.length substring]. now rewrite IHb.
Qed.

Lemma endswith_app (a suffix : string) : endswith (a ++ suffix) suffix = true.
Proof.
unfold endswith. rewrite string_length_app.
replace (String.length suffix <=? String.length a + String.length suffix)%nat with true
  by (symmetry; apply Nat.leb_le; lia).
replace (String.length a + String.length suffix - String.length suffix)%nat
  with (String.length a) by lia.
rewrite substring_app_r. cbn [andb]. apply String.eqb_refl.
Qed.

(** X14. In the name offered for a downloaded picture every blank of the
    label has become an underscore and every colon of the date a dash, and
    nothing else is changed: a label without blanks and a date without
    colons are used as they are, the name is as long as label and date
    together plus five characters, and it ends in [.png]. *)
Theorem download_name_separators label date :
  contains " " (replace " " "_" label) = false
  ∧ contains ":" (replace ":" "-" date) = false
  ∧ (contains " " label = false → contains ":" date = false →
     download_name label date = label ++ "_" ++ date ++ ".png")
  ∧ String.length (download_name label date)
    = (String.length label + String.length date + 5)%nat
  ∧ endswith (download_name label date) ".png" = true.
Proof.
split; [now apply replace_removes|]. split; [now apply replace_removes|].
split; [|split].
- intros Hl Hd. unfold download_name.
  now rewrite (replace_absent _ _ _ Hl), (replace_absent _ _ _ Hd).
- unfold download_name. rewrite !string_length_app, !replace_length. cbn. lia.
- unfold download_name. rewrite <- !string_app_assoc. apply endswith_app.
Qed.

(** ** What the CSV text determines *)

Lemma str_int_inj n n' : str (Int n) = str (Int n') → n = n'.
Proof.
cbn [str]. intros E. apply DecimalZ.to_int_inj.
assert (Hnil : ∀ z, Z.to_int z ≠ Decimal.Pos Decimal.Nil
                   ∧ Z.to_int z ≠ Decimal.Neg Decimal.Nil).
{ intros [|p|p]; cbn; split; try discriminate;
    intros [= Hp]; now apply DecimalPos.Unsigned.to_uint_nonnil in Hp. }
destruct (Hnil n) as [Hn1 Hn2]. destruct (Hnil n') as [Hn1' Hn2'].
pose proof (NilZero.isi _ Hn1 Hn2) as H1.
pose proof (NilZero.isi _ Hn1' Hn2') as H2.
rewrite E in H1. congruence.
Qed.

Lemma export_rows (es : list entry) :
  read_csv (csv_text ([Str "Date"; Str "Label"; Str "Dot Size"] :: (summary_row <$> es))) =
  ["Date"; "Label"; "Dot Size"]
    :: ((λ e : entry, [entry_date e; entry_label e; str (Int (entry_size e))]) <$> es).
Proof.
rewrite read_csv_text. cbn [fmap list_fmap]. f_equal.
rewrite <- list_fmap_compose. reflexivity.
Qed.

(** X15. The CSV text determines the table it was written from: two
    sessions whose exports are the same text have the same dates, labels and
    dot sizes, entry by entry, whatever commas, quotes or line breaks the
    labels hold. *)
Theorem prepare_csv_injective st st' :
  page_of (prepare_csv st []) = page_of (prepare_csv st' []) →
  (λ e : entry, (entry_date e, entry_label e, entry_size e)) <$> entries st =
  (λ e : entry, (entry_date e, entry_label e, entry_size e)) <$> entries st'.
Proof.
rewrite !prepare_csv_run. unfold page_of. cbn [snd app].
intros [= Htext]. apply (f_equal read_csv) in Htext.
rewrite !read_csv_text, <- !list_fmap_compose in Htext.
revert Htext. generalize (entries st'). generalize (entries st).
induction l as [|e es IH]; intros [|e' es'] Hrows; cbn in Hrows; try discriminate.
- reflexivity.
- injection Hrows as Hd Hl Hs Hrest. cbn [fmap list_fmap].
  rewrite Hd, Hl, (str_int_inj _ _ Hs). f_equal. now apply IH.
Qed.

Section SaveThenExport.
Context `{EllipseFill, PngEncoder}.

(** X16. A successful save shows up in the next export as one more row,
    the last one, with the clock reading, the label and the dot size of
    that save; the rows before it are the rows of the export before the
    save. *)
Theorem save_entry_then_prepare_csv base label dot_size now st page :
  label ≠ "" →
  dots st ≠ [] →
  let st1 := state_of (save_entry (Some base) label dot_size now st page) in
  ∃ text text1,
    page_of (prepare_csv st []) =
      [st_download_button (Text text) "body_markers_summary.csv" "text/csv"]
    ∧ page_of (prepare_csv st1 []) =
      [st_download_button (Text text1) "body_markers_summary.csv" "text/csv"]
    ∧ read_csv text1 = (read_csv text ++ [[now; label; str (Int dot_size)]])%list.
Proof.
intros Hlabel Hdots st1.
assert (Hst1 : entries st1 =
  (entries st ++
     [(now, label, save_png (get_image_with_dots base (dots st) None dot_size),
       dot_size)])%list).
{ subst st1. unfold save_entry. run.
  apply truthy_true in Hlabel. apply nonempty_true in Hdots.
  rewrite Hlabel, Hdots. reflexivity. }
eexists. eexists. rewrite !prepare_csv_run. unfold page_of. cbn [snd app].
split; [reflexivity|]. split; [reflexivity|].
rewrite !export_rows, Hst1, fmap_app. reflexivity.
Qed.

End SaveThenExport.

(** ** The theorems at concrete inputs

    The session of the example: a white canvas of 30 by 30 as [body.png],
    dots at (10, 10) and (20, 20), dot size 6, label [Scar]. *)

Definition example_image : list (list rgba) := new_image 30 30 white.

Definition example_dir : directory := [("body.png", inl example_image)].

Definition example_pending : session_state :=
  {| dots := [(10, 10); (20, 20)]%Z; entries := [] |}.

Definition example_saved : session_state :=
  {| dots := [];
     entries := [("2024-05-01 09:30:00", "Scar", [], 6%Z);
                 ("2024-05-01 09:31:00", "Mole", [], 4%Z);
                 ("2024-05-01 09:32:00", "Burn", [], 8%Z)] |}.

Lemma save_entry_appends_example :
  "Scar" ≠ ""
  ∧ dots example_pending ≠ []
  ∧ save_entry (Some example_image) "Scar" 6 "2024-05-01 09:30:00" example_pending [] =
      (inl tt,
       {| dots := [];
          entries :=
            [("2024-05-01 09:30:00", "Scar",
              save_png (get_image_with_dots example_image [(10, 10); (20, 20)]%Z None 6),
              6%Z)] |},
       [st_success "Entry saved."]).
Proof.
assert (H1 : "Scar" ≠ "") by discriminate.
assert (H2 : dots example_pending ≠ []) by discriminate.
split; [exact H1|]. split; [exact H2|].
exact (proj1 (save_entry_appends example_image "Scar" 6 "2024-05-01 09:30:00"
                example_pending [] H1 H2)).
Defined.

Lemma save_entry_rejected_example :
  ("" = "" ∨ dots example_pending = [])
  ∧ save_entry (Some example_image) "" 6 "2024-05-01 09:30:00" example_pending [] =
      (inl tt, example_pending, [st_warning "Please add at least one dot and a label."]).
Proof.
assert (H1 : "" = "" ∨ dots example_pending = []) by (left; reflexivity).
split; [exact H1|].
exact (proj1 (save_entry_rejected (Some example_image) "" 6 "2024-05-01 09:30:00"
                example_pending [] H1)).
Defined.

Lemma render_draws_dots_example :
  (2 ≤ 6)%Z
  ∧ getpixel (get_image_with_dots example_image [(10, 10); (20, 20)]%Z None 6) 10 10 = Some red
  ∧ getpixel (get_image_with_dots example_image [(10, 10); (20, 20)]%Z None 6) 20 20 = Some red.
Proof.
assert (H0 : (2 ≤ 6)%Z) by lia.
split; [exact H0|].
destruct (render_draws_dots example_image [(10, 10); (20, 20)]%Z 6 H0)
  as (_ & _ & _ & Hred & _).
split; apply Hred.
- left.
- exists white. reflexivity.
- right. left.
- exists white. reflexivity.
Defined.

Lemma delete_removes_entry_example :
  (1 < length (entries example_saved))%nat
  ∧ entries (state_of (saved_entries (Some (Delete 1)) example_saved [])) =
      [("2024-05-01 09:30:00", "Scar", [], 6%Z); ("2024-05-01 09:32:00", "Burn", [], 8%Z)].
Proof.
assert (H1 : (1 < length (entries example_saved))%nat) by (cbn; lia).
split; [exact H1|].
destruct (delete_removes_entry 1 example_saved [] H1) as (_ & E & _).
exact E.
Defined.

Definition example_store : list Mut.object :=
  [Mut.PilImage example_image; Mut.PyList [(10, 10); (20, 20)]%Z].

Lemma get_image_with_dots_pure_example :
  example_store !! 0%nat = Some (Mut.PilImage example_image)
  ∧ example_store !! 1%nat = Some (Mut.PyList [(10, 10); (20, 20)]%Z)
  ∧ ∃ out h',
      Mut.get_image_with_dots 0 1 (Some (5, 5)%Z) 6 example_store = Some (2%nat, h')
      ∧ h' !! 2%nat = Some (Mut.PilImage out)
      ∧ h' !! 0%nat = Some (Mut.PilImage example_image)
      ∧ h' !! 1%nat = Some (Mut.PyList [(10, 10); (20, 20)]%Z).
Proof.
assert (H0 : example_store !! 0%nat = Some (Mut.PilImage example_image)) by reflexivity.
assert (H1 : example_store !! 1%nat = Some (Mut.PyList [(10, 10); (20, 20)]%Z))
  by reflexivity.
split; [exact H0|]. split; [exact H1|].
destruct (get_image_with_dots_pure example_store example_store 0 1 0 1
            example_image [(10, 10); (20, 20)]%Z (Some (5, 5)%Z) 6 H0 H1 H0 H1)
  as (out & h' & Hrun & _ & Hout & _ & Hbase & Hdots & _).
exists out, h'. repeat split; assumption.
Defined.

Definition example_run1 : session_state :=
  state_of (script example_dir "Scar" 6 10 10 "2024-05-01 09:29:00" (Some AddDot)
              initial_state []).

Definition example_run2 : session_state :=
  state_of (script example_dir "Scar" 6 10 10 "2024-05-01 09:30:00" (Some SaveEntry)
              example_run1 []).

Lemma reachable_entries_labelled_example :
  reachable example_run2
  ∧ length (entries example_run2) = 1%nat
  ∧ Forall (λ e, entry_label e ≠ "") (entries example_run2).
Proof.
assert (H2 : reachable example_run2).
{ apply reachable_run. apply reachable_run. apply reachable_initial. }
split; [exact H2|]. split; [reflexivity|].
exact (reachable_entries_labelled example_run2 H2).
Defined.

(** The export of the example: a label with a comma and a quote in it is
    written between quotes and read back as it was. *)
Example prepare_csv_example :
  let crlf := String cr (String lf "") in
  let label := "Scar, " ++ String dquote "old" ++ String dquote "" in
  let st := {| dots := [];
               entries := [("2024-05-01 09:30:00", "Scar", [], 6%Z);
                           ("2024-05-01 09:31:00", label, [], 12%Z)] |} in
  page_of (prepare_csv st []) =
    [st_download_button
       (Text ("Date,Label,Dot Size" ++ crlf ++
              "2024-05-01 09:30:00,Scar,6" ++ crlf ++
              "2024-05-01 09:31:00," ++
                String dquote ("Scar, " ++ String dquote (String dquote "old") ++
                               String dquote (String dquote (String dquote ""))) ++
                ",12" ++ crlf))
       "body_markers_summary.csv" "text/csv"]
  ∧ read_csv ("Date,Label,Dot Size" ++ crlf ++
              "2024-05-01 09:30:00,Scar,6" ++ crlf ++
              "2024-05-01 09:31:00," ++
                String dquote ("Scar, " ++ String dquote (String dquote "old") ++
                               String dquote (String dquote (String dquote ""))) ++
                ",12" ++ crlf) =
    [["Date"; "Label"; "Dot Size"];
     ["2024-05-01 09:30:00"; "Scar"; "6"];
     ["2024-05-01 09:31:00"; label; "12"]].
Proof. split; vm_compute; reflexivity. Qed.

(** ** The further properties at concrete inputs *)

Lemma getpixel_new_image_Some w h c px py :
  is_Some (getpixel (new_image w h c) px py) →
  (0 ≤ px < Z.of_nat w)%Z ∧ (0 ≤ py < Z.of_nat h)%Z.
Proof.
unfold getpixel, new_image. intros [p Hp].
destruct (0 <=? px)%Z eqn:Hx; [|discriminate].
destruct (0 <=? py)%Z eqn:Hy; [|discriminate].
apply Z.leb_le in Hx, Hy. cbn [andb] in Hp.
destruct (replicate h (replicate w c) !! Z.to_nat py) as [row|] eqn:Hrow; [|discriminate].
cbn [mbind option_bind] in Hp.
apply lookup_replicate in Hrow as [-> Hlt].
apply lookup_replicate in Hp as [_ Hlt']. lia.
Qed.

Lemma render_same_dots_example :
  (∀ p, p ∈ [(10, 10); (20, 20); (10, 10)]%Z ↔ p ∈ [(20, 20); (10, 10)]%Z)
  ∧ get_image_with_dots example_image [(10, 10); (20, 20); (10, 10)]%Z (Some (5, 5)%Z) 6 =
    get_image_with_dots example_image [(20, 20); (10, 10)]%Z (Some (5, 5)%Z) 6.
Proof.
assert (Hsame : ∀ p, p ∈ [(10, 10); (20, 20); (10, 10)]%Z ↔ p ∈ [(20, 20); (10, 10)]%Z).
{ intros p. rewrite !elem_of_cons, !elem_of_nil. tauto. }
split; [exact Hsame|].
exact (render_same_dots example_image _ _ (Some (5, 5)%Z) 6 Hsame).
Defined.

Lemma render_off_image_example :
  (∀ x y px py, (x, y) ∈ [(100, 100)]%Z → is_Some (getpixel example_image px py) →
     ¬ (x - 6 / 2 ≤ px ≤ x + 6 / 2 ∧ y - 6 / 2 ≤ py ≤ y + 6 / 2)%Z)
  ∧ get_image_with_dots example_image [(100, 100)]%Z None 6 = example_image.
Proof.
assert (Hoff : ∀ x y px py, (x, y) ∈ [(100, 100)]%Z →
     is_Some (getpixel example_image px py) →
     ¬ (x - 6 / 2 ≤ px ≤ x + 6 / 2 ∧ y - 6 / 2 ≤ py ≤ y + 6 / 2)%Z).
{ intros x y px py Hin Hpix.
  apply list_elem_of_singleton in Hin. injection Hin as -> ->.
  apply getpixel_new_image_Some in Hpix.
  change (6 / 2)%Z with 3%Z. change (Z.of_nat 30) with 30%Z in Hpix. lia. }
split; [exact Hoff|].
exact (render_off_image example_image [(100, 100)]%Z 6 Hoff).
Defined.

Lemma save_entry_twice_example :
  "Scar" ≠ ""
  ∧ dots example_pending ≠ []
  ∧ save_entry (Some example_image) "Scar again" 8 "2024-05-01 09:30:01"
      (state_of (save_entry (Some example_image) "Scar" 6 "2024-05-01 09:30:00"
                   example_pending []))
      [] =
    (inl tt,
     state_of (save_entry (Some example_image) "Scar" 6 "2024-05-01 09:30:00"
                 example_pending []),
     [st_warning "Please add at least one dot and a label."]).
Proof.
assert (H1 : "Scar" ≠ "") by discriminate.
assert (H2 : dots example_pending ≠ []) by discriminate.
split; [exact H1|]. split; [exact H2|].
exact (proj2 (save_entry_twice example_image (Some example_image) "Scar" "Scar again"
                6 8 "2024-05-01 09:30:00" "2024-05-01 09:30:01"
                example_pending [] [] H1 H2)).
Defined.

Lemma example_dir_loads : load_body_image example_dir = (Some example_image, []).
Proof. reflexivity. Qed.

Lemma script_effect_example :
  load_body_image example_dir = (Some example_image, [])
  ∧ state_of (script example_dir "Scar" 6 10 10 "2024-05-01 09:33:00" (Some (Delete 1))
                example_saved [])
    = {| dots := [];
         entries := [("2024-05-01 09:30:00", "Scar", [], 6%Z);
                     ("2024-05-01 09:32:00", "Burn", [], 8%Z)] |}.
Proof.
split; [exact example_dir_loads|].
exact (script_effect example_dir example_image [] "Scar" 6 10 10 "2024-05-01 09:33:00"
         (Some (Delete 1)) example_saved [] example_dir_loads).
Defined.

Lemma script_ending_example :
  load_body_image example_dir = (Some example_image, [])
  ∧ ending_of (script example_dir "Scar" 6 10 10 "2024-05-01 09:33:00" (Some (Delete 5))
                 example_saved [])
    = inl tt
  ∧ ending_of (script example_dir "Scar" 6 10 10 "2024-05-01 09:33:00" (Some AddDot)
                 example_saved [])
    = inr Rerun.
Proof.
split; [exact example_dir_loads|]. split.
- exact (script_ending example_dir example_image [] "Scar" 6 10 10 "2024-05-01 09:33:00"
           (Some (Delete 5)) example_saved [] example_dir_loads).
- exact (script_ending example_dir example_image [] "Scar" 6 10 10 "2024-05-01 09:33:00"
           (Some AddDot) example_saved [] example_dir_loads).
Defined.

Definition broken_dir : directory :=
  [("notes.txt", inr "cannot identify image file");
   ("Body.PNG", inr "cannot identify image file");
   ("human.jpg", inl example_image)].

Lemma broken_dir_loads :
  load_body_image broken_dir =
  (None, [st_error "Error loading image 'Body.PNG': cannot identify image file"]).
Proof. reflexivity. Qed.

Lemma script_without_image_state_example :
  load_body_image broken_dir =
    (None, [st_error "Error loading image 'Body.PNG': cannot identify image file"])
  ∧ ending_of (script broken_dir "Scar" 6 10 10 "2024-05-01 09:33:00" (Some UndoLastDot)
                 example_pending [])
    = inr (Raise AttributeError)
  ∧ dots (state_of (script broken_dir "Scar" 6 10 10 "2024-05-01 09:33:00"
                      (Some UndoLastDot) example_pending []))
    = [(10, 10)%Z].
Proof.
split; [exact broken_dir_loads|].
destruct (script_without_image_state broken_dir _ "Scar" 6 10 10 "2024-05-01 09:33:00"
            (Some UndoLastDot) example_pending [] broken_dir_loads)
  as (Hend & _ & Hdots & _).
split; [exact Hend | exact Hdots].
Defined.

Definition example_log :
    list (directory * string * Z * string * option button * session_state) :=
  [(example_dir, "Scar", 6%Z, "2024-05-01 09:30:00", Some SaveEntry, example_run1);
   (example_dir, "Scar", 6%Z, "2024-05-01 09:29:00", Some AddDot, initial_state)].

Lemma trace_entries_rendered_example :
  trace example_log example_run2
  ∧ entries example_run2 =
    [("2024-05-01 09:30:00", "Scar",
      save_png (get_image_with_dots example_image [(10, 10)%Z] None 6), 6%Z)]
  ∧ Forall (λ e : entry,
              ∃ listdir label dot_size now before b notices,
                (listdir, label, dot_size, now, Some SaveEntry, before) ∈ example_log
                ∧ load_body_image listdir = (Some b, notices)
                ∧ dots before ≠ []
                ∧ e = (now, label,
                       save_png (get_image_with_dots b (dots before) None dot_size),
                       dot_size))
           (entries example_run2).
Proof.
assert (H2 : trace example_log example_run2).
{ unfold example_log, example_run2, example_run1.
  apply (trace_run _ _ example_dir "Scar" 6%Z 10%Z 10%Z "2024-05-01 09:30:00"
           (Some SaveEntry) []).
  apply (trace_run _ _ example_dir "Scar" 6%Z 10%Z 10%Z "2024-05-01 09:29:00"
           (Some AddDot) []).
  apply trace_initial. }
split; [exact H2|]. split; [reflexivity|].
exact (trace_entries_rendered example_log example_run2 H2).
Defined.

Lemma load_body_image_first_candidate_example :
  (∀ f, f ∈ [("notes.txt", @inr (list (list rgba)) string "cannot identify image file")] →
     is_image_file f.1 && is_body_image f.1 = false)
  ∧ is_image_file "Body.PNG" = true
  ∧ is_body_image "Body.PNG" = true
  ∧ load_body_image broken_dir =
    (None, [st_error "Error loading image 'Body.PNG': cannot identify image file"]).
Proof.
assert (H0 : ∀ f,
  f ∈ [("notes.txt", @inr (list (list rgba)) string "cannot identify image file")] →
  is_image_file f.1 && is_body_image f.1 = false).
{ intros f Hf. apply list_elem_of_singleton in Hf. subst f. reflexivity. }
assert (H1 : is_image_file "Body.PNG" = true) by reflexivity.
assert (H2 : is_body_image "Body.PNG" = true) by reflexivity.
split; [exact H0|]. split; [exact H1|]. split; [exact H2|].
exact (load_body_image_first_candidate _ "Body.PNG" (inr "cannot identify image file")
         [("human.jpg", inl example_image)] H0 H1 H2).
Defined.

Definition bare_dir : directory :=
  [("notes.txt", inr "cannot identify image file");
   ("body.txt", inr "cannot identify image file");
   ("cat.png", inl example_image)].

Lemma load_body_image_no_candidate_example :
  (∀ f, f ∈ bare_dir → is_image_file f.1 && is_body_image f.1 = false)
  ∧ ∃ img,
      load_body_image bare_dir =
        (Some img, [st_warning "No body outline image found. Using a blank placeholder."])
      ∧ width img = 500%Z ∧ height img = 800%Z.
Proof.
assert (H0 : ∀ f, f ∈ bare_dir → is_image_file f.1 && is_body_image f.1 = false).
{ intros f Hf. unfold bare_dir in Hf. rewrite !elem_of_cons, elem_of_nil in Hf.
  destruct Hf as [-> | [-> | [-> | []]]]; reflexivity. }
split; [exact H0|].
destruct (load_body_image_no_candidate bare_dir H0) as (img & Hload & Hw & Hh & _).
exists img. split; [exact Hload|]. split; [exact Hw | exact Hh].
Defined.

Lemma get_image_with_dots_twice_example :
  example_store !! 0%nat = Some (Mut.PilImage example_image)
  ∧ example_store !! 1%nat = Some (Mut.PyList [(10, 10); (20, 20)]%Z)
  ∧ ∃ h1 h2,
      Mut.get_image_with_dots 0 1 None 6 example_store = Some (2%nat, h1)
      ∧ Mut.get_image_with_dots 0 1 (Some (5, 5)%Z) 6 h1 = Some (3%nat, h2)
      ∧ h2 !! 2%nat =
        Some (Mut.PilImage
                (get_image_with_dots example_image [(10, 10); (20, 20)]%Z None 6)).
Proof.
assert (H0 : example_store !! 0%nat = Some (Mut.PilImage example_image)) by reflexivity.
assert (H1 : example_store !! 1%nat = Some (Mut.PyList [(10, 10); (20, 20)]%Z))
  by reflexivity.
split; [exact H0|]. split; [exact H1|].
destruct (get_image_with_dots_twice example_store 0 1 example_image
            [(10, 10); (20, 20)]%Z None 6 (Some (5, 5)%Z) 6 H0 H1)
  as (h1 & h2 & Hr1 & Hr2 & Hout1 & _).
exists h1, h2. split; [exact Hr1|]. split; [exact Hr2 | exact Hout1].
Defined.


Definition example_saved' : session_state :=
  {| dots := [(1, 1)%Z];
     entries := [("2024-05-01 09:30:00", "Scar", [Byte.x00], 6%Z);
                 ("2024-05-01 09:31:00", "Mole", [Byte.x01], 4%Z);
                 ("2024-05-01 09:32:00", "Burn", [Byte.x02], 8%Z)] |}.

Lemma prepare_csv_injective_example :
  page_of (prepare_csv example_saved []) = page_of (prepare_csv example_saved' [])
  ∧ (λ e : entry, (entry_date e, entry_label e, entry_size e)) <$> entries example_saved =
    (λ e : entry, (entry_date e, entry_label e, entry_size e)) <$> entries example_saved'.
Proof.
assert (H0 : page_of (prepare_csv example_saved []) = page_of (prepare_csv example_saved' []))
  by reflexivity.
split; [exact H0|].
exact (prepare_csv_injective example_saved example_saved' H0).
Defined.

Lemma save_entry_then_prepare_csv_example :
  "Scar" ≠ ""
  ∧ dots example_pending ≠ []
  ∧ ∃ text text1,
      page_of (prepare_csv example_pending []) =
        [st_download_button (Text text) "body_markers_summary.csv" "text/csv"]
      ∧ page_of (prepare_csv
                   (state_of (save_entry (Some example_image) "Scar" 6
                                "2024-05-01 09:30:00" example_pending []))
                   []) =
        [st_download_button (Text text1) "body_markers_summary.csv" "text/csv"]
      ∧ read_csv text1 = (read_csv text ++ [["2024-05-01 09:30:00"; "Scar"; "6"]])%list.
Proof.
assert (H1 : "Scar" ≠ "") by discriminate.
assert (H2 : dots example_pending ≠ []) by discriminate.
split; [exact H1|]. split; [exact H2|].
exact (save_entry_then_prepare_csv example_image "Scar" 6 "2024-05-01 09:30:00"
         example_pending [] H1 H2).
Defined.


Lemma sliders_start_inside_example :
  (∀ row, row ∈ example_image → Z.of_nat (length row) = width example_image)
  ∧ x_slider example_image = (0, 29, 15)%Z
  ∧ y_slider example_image = (0, 29, 15)%Z
  ∧ is_Some (getpixel example_image 15 15).
Proof.
assert (H0 : ∀ row, row ∈ example_image → Z.of_nat (length row) = width example_image).
{ intros row Hrow. unfold example_image, new_image in Hrow.
  apply elem_of_replicate in Hrow as [-> _]. reflexivity. }
split; [exact H0|]. split; [reflexivity|]. split; [reflexivity|].
pose proof (sliders_start_inside example_image H0) as Hs.
cbn in Hs. destruct Hs as (_ & _ & _ & _ & Hpix). apply Hpix. lia.
Defined.

(** A body image of a single pixel: the loader takes it, the sidebar works,
    and every run stops where the X slider is handed the range from 0 to 0,
    before Add Dot is looked at. *)
Example one_pixel_image_stops_at_sliders :
  let listdir : directory := [("body.png", inl (new_image 1 1 white))] in
  script listdir "Scar" 6 0 0 "2024-05-01 09:29:00" (Some AddDot) initial_state [] =
    (inr (Raise StreamlitAPIException), initial_state, [])
  ∧ script listdir "Scar" 6 0 0 "2024-05-01 09:29:00" (Some ClearAllDots) example_pending [] =
    (inr (Raise StreamlitAPIException), {| dots := []; entries := [] |}, []).
Proof. split; reflexivity. Qed.
